(** * distributed: the cluster manager and the Active Memory Manager

    These parts of the repository are treated here.

    - [Cluster]: [Cluster._close] and [Cluster.close] of
      [distributed/deploy/cluster.py], embedded from the source as a small
      state-and-exception monad over the fields the two methods touch;
      [ShutdownPlan] describes the same shutdown as a list of calls.
    - [Info], [Watch], [ClusterInfo], [Logs], [Adaptivity], [SyncInfo]: the
      other methods of [cluster.py] that keep the cluster's view of the
      scheduler ([_update_worker_status], [_watch_worker_status],
      [dashboard_link], [name], [_log], [_get_logs], [adapt],
      [_sync_cluster_info]), over Python values where they handle
      dictionaries and strings.
    - [AMM]: the Active Memory Manager exercised by
      [distributed/tests/test_active_memory_manager.py].  Only the test module
      ([DemoPolicy], [DropEverything] and the scenarios) is part of the
      sources at hand; the
      arbiter, the manager life cycle and the retirement workflow are modelled
      from the specification, and every such definition says so. *)

From stdpp Require Import gmap strings list fin_maps fin_sets pretty.
From Stdlib Require Import ZArith Lia Ascii.

#[local] Set Warnings "-clear-no-such-hyp".

Open Scope string_scope.
Open Scope list_scope.

(** [distributed.core.Status] is imported by both source files; the members
    listed are the ones the sources and the specification name. *)
Inductive Status : Set :=
| created
| running
| paused
| closing
| closing_gracefully
| closed.

#[global] Instance Status_eq_dec : EqDecision Status.
Proof. solve_decision. Defined.

(* ===================================================================== *)
(** ** [distributed/deploy/cluster.py] *)
(* ===================================================================== *)

Module Cluster.

(** Exceptions that [_close] and [close] name in a [suppress] block, and any
    other exception an awaited collaborator may raise. *)
Inductive Exn : Set :=
| AttributeError
| RuntimeError
| CancelledError
| OtherError (name : string).

#[global] Instance Exn_eq_dec : EqDecision Exn.
Proof. solve_decision. Defined.

(** The calls [_close] makes on its collaborators, in the order of the source.
    The collaborators themselves (adaptive, comms, tasks, periodic callbacks)
    live in other modules; a call is recorded in the cluster's [calls] trace
    and its outcome is read from an environment. *)
Inductive Call : Set :=
| adaptive_stop
| watch_comm_close
| watch_task_await
| sync_task_cancel
| sync_task_await
| scheduler_comm_close_rpc
| pc_stop (name : string).

#[global] Instance Call_eq_dec : EqDecision Call.
Proof. solve_decision. Defined.

(** What [Cluster.close] hands back to its caller. *)
Inductive CloseRet (V : Type) : Type :=
| RetNone
| RetNoOpAwaitable
| RetSync (v : V).
Arguments RetNone {V}.
Arguments RetNoOpAwaitable {V}.
Arguments RetSync {V} v.

Section WithCollaborators.

(** Handles of the collaborating objects; [None] is Python's [None]
    (falsy), [Some] a live object (truthy). *)
Variables Adaptive Comm Task Rpc PC : Type.

(** The attributes of a [Cluster] that [_close] and [close] read or write.
    [asynchronous] is the property inherited from [SyncMethodMixin];
    [periodic_callbacks] is the dict of named callbacks, in insertion order;
    [calls] is the trace of the calls made on collaborators so far. *)
Record cluster : Type := mk_cluster {
  status : Status;
  asynchronous : bool;
  _adaptive : option Adaptive;
  _watch_worker_status_comm : option Comm;
  _watch_worker_status_task : option Task;
  _sync_cluster_info_task : option Task;
  scheduler_comm : option Rpc;
  periodic_callbacks : list (string * PC);
  calls : list Call
}.

Definition set_status (st : Status) (c : cluster) : cluster :=
  {| status := st;
     asynchronous := asynchronous c;
     _adaptive := _adaptive c;
     _watch_worker_status_comm := _watch_worker_status_comm c;
     _watch_worker_status_task := _watch_worker_status_task c;
     _sync_cluster_info_task := _sync_cluster_info_task c;
     scheduler_comm := scheduler_comm c;
     periodic_callbacks := periodic_callbacks c;
     calls := calls c |}.

Definition record_call (k : Call) (c : cluster) : cluster :=
  {| status := status c;
     asynchronous := asynchronous c;
     _adaptive := _adaptive c;
     _watch_worker_status_comm := _watch_worker_status_comm c;
     _watch_worker_status_task := _watch_worker_status_task c;
     _sync_cluster_info_task := _sync_cluster_info_task c;
     scheduler_comm := scheduler_comm c;
     periodic_callbacks := periodic_callbacks c;
     calls := calls c ++ [k] |}.

(** A method body: it may mutate the cluster and either returns or raises;
    mutations made before a [raise] stay. *)
Definition M (A : Type) : Type := cluster -> cluster * (Exn + A).

Definition ret {A} (a : A) : M A := fun c => (c, inr a).
Definition raise {A} (e : Exn) : M A := fun c => (c, inl e).
Definition bind {A B} (m : M A) (k : A -> M B) : M B :=
  fun c =>
    match m c with
    | (c', inl e) => (c', inl e)
    | (c', inr a) => k a c'
    end.

Notation "m >>> k" := (bind m (fun _ => k))
  (at level 60, right associativity).

(** [with suppress(E): body] *)
Definition suppress (E : Exn) (body : M unit) : M unit :=
  fun c =>
    match body c with
    | (c', inl e) => if decide (e = E) then (c', inr tt) else (c', inl e)
    | r => r
    end.

(** [if obj: body] for an attribute that is [None] or an object. *)
Definition when_set {A} (o : cluster -> option A) (body : M unit) : M unit :=
  fun c => match o c with Some _ => body c | None => (c, inr tt) end.

(** Outcome of each collaborator call: [None] when it returns, [Some e]
    when it raises [e]. *)
Variable raises : Call -> option Exn.

Definition call (k : Call) : M unit :=
  fun c =>
    (record_call k c,
     match raises k with Some e => inl e | None => inr tt end).

(** [self._adaptive.stop()]: attribute access on [None] raises
    [AttributeError]. *)
Definition stop_adaptive : M unit :=
  fun c =>
    match _adaptive c with
    | None => (c, inl AttributeError)
    | Some _ => call adaptive_stop c
    end.

(** [for pc in self.periodic_callbacks.values(): pc.stop()] *)
Fixpoint stop_all (pcs : list (string * PC)) : M unit :=
  match pcs with
  | [] => ret tt
  | (name, _) :: rest => call (pc_stop name) >>> stop_all rest
  end.

Definition _close : M unit :=
  fun c =>
    if decide (status c = closed) then (c, inr tt)
    else
      ((fun c => (set_status closing c, inr tt)) >>>
       suppress AttributeError stop_adaptive >>>
       when_set _watch_worker_status_comm (call watch_comm_close) >>>
       when_set _watch_worker_status_task (call watch_task_await) >>>
       when_set _sync_cluster_info_task
         (call sync_task_cancel >>>
          suppress CancelledError (call sync_task_await)) >>>
       when_set scheduler_comm (call scheduler_comm_close_rpc) >>>
       (fun c => stop_all (periodic_callbacks c) c) >>>
       (fun c => (set_status closed c, inr tt))) c.

(** [SyncMethodMixin.sync] is defined in [distributed.utils]: in
    asynchronous mode it hands back the coroutine, otherwise it drives it on
    the event loop.  It is taken as given. *)
Variable SyncVal : Type.
Variable sync : M unit -> option Z -> M SyncVal.

Definition close (timeout : option Z) : M (CloseRet SyncVal) :=
  fun c =>
    if decide (status c = closed) then
      if asynchronous c then (c, inr RetNoOpAwaitable) else (c, inr RetNone)
    else
      match sync _close timeout c with
      | (c', inl e) =>
          if decide (e = RuntimeError) then (c', inr RetNone)
          else (c', inl e)
      | (c', inr v) => (c', inr (RetSync v))
      end.

End WithCollaborators.

Arguments status {_ _ _ _ _} _.
Arguments asynchronous {_ _ _ _ _} _.
Arguments calls {_ _ _ _ _} _.
Arguments set_status {_ _ _ _ _} _ _.
Arguments record_call {_ _ _ _ _} _ _.
Arguments call {_ _ _ _ _} _ _ _.
Arguments stop_all {_ _ _ _ _} _ _ _.
Arguments _close {_ _ _ _ _} _ _.
Arguments close {_ _ _ _ _} _ {_} _ _ _.

End Cluster.

(* ===================================================================== *)
(** ** The Active Memory Manager *)
(* ===================================================================== *)

Module AMM.

(** Worker addresses and task keys are Python [str]. *)
Abbreviation Addr := string.
Abbreviation Key := string.

(** The coarse state of a task on the scheduler ([ts.state]). *)
Inductive TaskStateName : Set :=
| released
| waiting
| processing
| memory.

#[global] Instance TaskStateName_eq_dec : EqDecision TaskStateName.
Proof. solve_decision. Defined.

(** The scheduler's view of a worker, with the attributes the tests read:
    [ws.address], [ws.status], [ws.memory.process], [ws.memory.optimistic],
    [ws.has_what].  Modelled from the spec (section 3): [processing_keys],
    the keys of the tasks currently processing on the worker. *)
Record WorkerState : Type := mk_ws {
  address : Addr;
  status : Status;
  memory_process : Z;
  memory_optimistic : Z;
  has_what : gset Key;
  processing_keys : gset Key
}.

(** The scheduler's view of a task, with the attributes the tests read:
    [ts.key], [ts.who_has], [ts.state].  Modelled from the spec (section 3):
    [waiters], the keys of the dependents that are not finished, and
    [nbytes]. *)
Record TaskState : Type := mk_ts {
  key : Key;
  who_has : gset Addr;
  waiters : gset Key;
  nbytes : Z;
  state : TaskStateName
}.

(** [s.workers] and [s.tasks] are insertion-ordered dicts; the lists hold
    their values in that order. *)
Record Scheduler : Type := mk_scheduler {
  workers : list WorkerState;
  tasks : list TaskState
}.

Definition worker_of (s : Scheduler) (a : Addr) : option WorkerState :=
  List.find (fun ws => bool_decide (address ws = a)) (workers s).

Definition task_of (s : Scheduler) (k : Key) : option TaskState :=
  List.find (fun ts => bool_decide (key ts = k)) (tasks s).

Definition all_workers (s : Scheduler) : gset Addr :=
  list_to_set (address <$> workers s).

(** The two actions a policy may suggest (the [Literal] of the test module). *)
Inductive Op : Set :=
| drop
| replicate.

#[global] Instance Op_eq_dec : EqDecision Op.
Proof. solve_decision. Defined.

(** A suggestion [(action, ts, candidates)]: the task is referred to by its
    key, workers by their address; [None] candidates is Python's [None]. *)
Definition Suggestion : Type := Op * Key * option (gset Addr).

(** *** [DemoPolicy] of the test module *)

Module DemoPolicy.

Record t : Type := mk {
  action : Op;
  key : Key;
  n : Z;
  candidates : option (list Z)
}.

(** [{ws for i, ws in enumerate(workers.values()) if i in candidates}] *)
Definition select (s : Scheduler) (idx : list Z) : gset Addr :=
  list_to_set
    (omap (fun iw : nat * WorkerState =>
             if bool_decide (Z.of_nat iw.1 ∈ idx) then Some (address iw.2)
             else None)
          (imap pair (workers s))).

(** [run]: the same suggestion is yielded [n] times for the task whose key is
    [self.key]; [range(n)] is empty for [n <= 0].  The generator yields the
    same [candidates] set object every time and does not read what is sent
    back to it, so its output is a list fixed by the scheduler state. *)
Definition run (p : t) (s : Scheduler) : list Suggestion :=
  let cands := select s <$> candidates p in
  flat_map
    (fun ts =>
       if bool_decide (AMM.key ts = key p)
       then repeat (action p, AMM.key ts, cands) (Z.to_nat (n p))
       else [])
    (tasks s).

End DemoPolicy.

(** *** Worker classification *)

(** Status and memory of the worker at an address; an address that is not a
    worker of the scheduler counts as [closed] and as using no memory. *)
Definition status_of (s : Scheduler) (a : Addr) : Status :=
  from_option status closed (worker_of s a).

Definition optimistic_of (s : Scheduler) (a : Addr) : Z :=
  from_option memory_optimistic 0%Z (worker_of s a).

(** Modelled from the spec: the classes of workers the arbiter tells apart
    (sections 3 and 4.2, glossary): running; paused or retiring, where
    retiring is [closing_gracefully]; healthy, which is neither paused nor
    retiring. *)
Definition is_running (s : Scheduler) (a : Addr) : bool :=
  bool_decide (status_of s a = running).

Definition paused_or_retiring (s : Scheduler) (a : Addr) : bool :=
  bool_decide (status_of s a = paused) ||
  bool_decide (status_of s a = closing_gracefully).

Definition healthy (s : Scheduler) (a : Addr) : bool :=
  negb (paused_or_retiring s a).

(** Modelled from the spec: a holder "with waiters" is one on which a
    dependent of the task that is not yet finished is processing
    (section 4.2). *)
Definition has_waiter (s : Scheduler) (T : TaskState) (a : Addr) : bool :=
  match worker_of s a with
  | Some ws => bool_decide (processing_keys ws ∩ waiters T ≠ ∅)
  | None => false
  end.

(** *** The per-tick transaction *)

(** Modelled from the spec: the transaction of a tick maps a task to its
    [pending_add] and [pending_remove] sets, both empty for a task not yet
    touched; the effective replica set of a task is
    [(who_has ∪ pending_add) ∖ pending_remove] (section 3). *)
Abbreviation Transaction := (gmap Key (gset Addr * gset Addr)).

Definition pending (X : Transaction) (k : Key) : gset Addr * gset Addr :=
  default (∅, ∅) (X !! k).

Definition pending_add (X : Transaction) (k : Key) : gset Addr :=
  (pending X k).1.

Definition pending_remove (X : Transaction) (k : Key) : gset Addr :=
  (pending X k).2.

Definition effective (T : TaskState) (X : Transaction) : gset Addr :=
  (who_has T ∪ pending_add X (key T)) ∖ pending_remove X (key T).

Definition add_replica (X : Transaction) (k : Key) (w : Addr) : Transaction :=
  <[k := ({[w]} ∪ pending_add X k, pending_remove X k)]> X.

Definition add_drop (X : Transaction) (k : Key) (w : Addr) : Transaction :=
  <[k := (pending_add X k, {[w]} ∪ pending_remove X k)]> X.

(** *** Selection *)

(** Modelled from the spec: the orderings of section 4.2 with the tie-break
    of rule 5, a total order on worker addresses.  [pick] returns the best
    element of a finite set for a preference [better], [None] for the empty
    set. *)
Definition pick (better : Addr -> Addr -> bool) (S : gset Addr) : option Addr :=
  foldr (fun a best =>
           match best with
           | None => Some a
           | Some b => if better a b then Some a else Some b
           end)
        None (elements S).

Definition addr_lt (a b : Addr) : bool := String.ltb a b.

(** [a] is preferred as a drop source: more memory in use, then address. *)
Definition more_loaded (s : Scheduler) (a b : Addr) : bool :=
  (optimistic_of s b <? optimistic_of s a)%Z ||
  ((optimistic_of s a =? optimistic_of s b)%Z && addr_lt a b).

(** [a] is preferred as a recipient: less memory in use, then address. *)
Definition less_loaded (s : Scheduler) (a b : Addr) : bool :=
  (optimistic_of s a <? optimistic_of s b)%Z ||
  ((optimistic_of s a =? optimistic_of s b)%Z && addr_lt a b).

(** Modelled from the spec: [with_waiters] of section 4.2, and the healthy,
    non-waiter holders rule R-drop asks for. *)
Definition with_waiters (s : Scheduler) (T : TaskState) (H : gset Addr) : gset Addr :=
  filter (fun a => has_waiter s T a = true) H.

Definition healthy_non_waiters (s : Scheduler) (T : TaskState) (H : gset Addr)
  : gset Addr :=
  filter (fun a => healthy s a = true ∧ has_waiter s T a = false) H.

(** *** The arbiter *)

(** Modelled from the spec: the reasons of a logged rejection (section 4.2,
    rule 4).  [not_in_memory] is the rejection at the gate on the task state
    (rule 1), for which the spec gives no wording. *)
Inductive Reason : Set :=
| less_than_2_replicas
| no_eligible_holder
| all_candidates_hold_key
| no_candidate_holds_key
| all_recipients_paused
| waiters_stranded
| not_in_memory.

#[global] Instance Reason_eq_dec : EqDecision Reason.
Proof. solve_decision. Defined.


(** The arbiter's answer to one suggestion; [Reject None] is a rejection that
    is not logged. *)
Inductive Decision : Set :=
| Accept (w : Addr)
| Reject (r : option Reason).

#[global] Instance Decision_eq_dec : EqDecision Decision.
Proof. solve_decision. Defined.

(** Modelled from the spec: [ActiveMemoryManagerExtension._find_dropper] is
    missing from the sources; this is the drop branch of section 4.2.  I2 is
    checked on the effective holder set [H] (reason "less than 2 replicas
    exist"); the pool is [candidates ∩ H], or [H] for nil candidates; the
    selection order is paused-or-retiring first, then the healthy holder
    without waiters that uses most memory; rule R-drop is applied to the
    worker selected: it is rejected when [H] without it has no healthy,
    non-waiter holder. *)
Definition _find_dropper (s : Scheduler) (T : TaskState) (X : Transaction)
    (candidates : option (gset Addr)) : Decision :=
  let H := effective T X in
  if decide (size H < 2) then Reject (Some less_than_2_replicas)
  else
    let pool := match candidates with Some c => c ∩ H | None => H end in
    if decide (pool = ∅) then Reject (Some no_candidate_holds_key)
    else
      let por := filter (fun a => paused_or_retiring s a = true) pool in
      let hale := filter (fun a => healthy s a = true) pool in
      let choice :=
        match pick addr_lt por with
        | Some w => Some w
        | None => pick (more_loaded s) (hale ∖ with_waiters s T H)
        end in
      match choice with
      | None => Reject (Some no_eligible_holder)
      | Some w =>
          if decide (healthy_non_waiters s T (H ∖ {[w]}) = ∅)
          then Reject (Some waiters_stranded)
          else Accept w
      end.

(** Modelled from the spec: [ActiveMemoryManagerExtension._find_recipient] is
    missing from the sources; this is the replicate branch of section 4.2:
    the candidates (all workers for nil) outside [H], filtered to
    [status = running], and among them the worker that uses least memory. *)
Definition _find_recipient (s : Scheduler) (T : TaskState) (X : Transaction)
    (candidates : option (gset Addr)) : Decision :=
  let H := effective T X in
  let outside := match candidates with Some c => c | None => all_workers s end ∖ H in
  if decide (outside = ∅) then Reject (Some all_candidates_hold_key)
  else
    let pool := filter (fun a => is_running s a = true) outside in
    match pick (less_loaded s) pool with
    | None => Reject (Some all_recipients_paused)
    | Some w => Accept w
    end.

(** Modelled from the spec: the arbiter's treatment of one suggestion
    (section 4.2), missing from the sources.  An explicit empty candidate set
    is the silent do-nothing signal (rule 4) and is tested first; then the
    gate on the task state (rule 1); then the branch for the action.  An
    accepted worker enters [pending_remove] or [pending_add] of the task. *)
Definition arbiter (s : Scheduler) (X : Transaction) (sg : Suggestion)
  : Transaction * Decision :=
  let '(op, k, candidates) := sg in
  if decide (candidates = Some ∅) then (X, Reject None)
  else
    match task_of s k with
    | None => (X, Reject (Some not_in_memory))
    | Some T =>
        if decide (state T = memory) then
          match op with
          | drop =>
              match _find_dropper s T X candidates with
              | Accept w => (add_drop X k w, Accept w)
              | d => (X, d)
              end
          | replicate =>
              match _find_recipient s T X candidates with
              | Accept w => (add_replica X k w, Accept w)
              | d => (X, d)
              end
          end
        else (X, Reject (Some not_in_memory))
    end.

(** Modelled from the spec: the suggestions of a policy run are consumed one
    at a time; each decision is applied to the transaction before the next
    suggestion is looked at (section 4.1). *)
Fixpoint run_suggestions (s : Scheduler) (X : Transaction) (l : list Suggestion)
  : Transaction * list Decision :=
  match l with
  | [] => (X, [])
  | sg :: rest =>
      let '(X1, d) := arbiter s X sg in
      let '(X2, ds) := run_suggestions s X1 rest in
      (X2, d :: ds)
  end.



(** *** Policies *)

#[global] Instance DemoPolicy_eq_dec : EqDecision DemoPolicy.t.
Proof. solve_decision. Defined.

(** The policies of a manager: the test module's [DemoPolicy] and the two
    built-in ones. *)
Inductive Policy : Type :=
| Demo (p : DemoPolicy.t)
| ReduceReplicas
| RetireWorker (address : Addr).

#[global] Instance Policy_eq_dec : EqDecision Policy.
Proof. solve_decision. Defined.

(** Modelled from the spec: [ReduceReplicas.run] (section 4.3), missing from
    the sources: for every task with two or more replicas, one drop with nil
    candidates per superfluous replica. *)
Definition ReduceReplicas_run (s : Scheduler) : list Suggestion :=
  flat_map
    (fun ts =>
       if decide (2 <= size (who_has ts))
       then repeat (drop, key ts, None) (size (who_has ts) - 1)
       else [])
    (tasks s).

(** Modelled from the spec: [RetireWorker.run] (section 4.3), missing from
    the sources: for every key held by the target, a drop from the target
    when a running worker elsewhere holds it, otherwise a replicate with nil
    candidates together with the drop. *)
Definition RetireWorker_run (target : Addr) (s : Scheduler) : list Suggestion :=
  match worker_of s target with
  | None => []
  | Some ws =>
      flat_map
        (fun k =>
           match task_of s k with
           | None => []
           | Some ts =>
               if decide (filter (fun a => is_running s a = true)
                                 (who_has ts ∖ {[target]}) = ∅)
               then [(replicate, k, None); (drop, k, Some {[target]})]
               else [(drop, k, Some {[target]})]
           end)
        (elements (has_what ws))
  end.

Definition policy_run (p : Policy) (s : Scheduler) : list Suggestion :=
  match p with
  | Demo d => DemoPolicy.run d s
  | ReduceReplicas => ReduceReplicas_run s
  | RetireWorker a => RetireWorker_run a s
  end.

(** Modelled from the spec: a [RetireWorker] policy removes itself from the
    policy set when its target is no longer in the scheduler (section 4.3). *)
Definition self_removes (p : Policy) (s : Scheduler) : bool :=
  match p with
  | RetireWorker a => bool_decide (worker_of s a = None)
  | _ => false
  end.

(** *** The manager *)

(** Modelled from the spec: the state of [ActiveMemoryManagerExtension]
    (section 4.4), missing from the sources: the policy set in insertion
    order, the tick interval, the observable [running] flag, and the number of
    periodic ticks the manager has installed on the event loop. *)
Record Manager : Type := mk_manager {
  policies : list Policy;
  interval : Z;
  amm_running : bool;
  periodic_ticks : nat
}.

(** Modelled from the spec: a manager as created, stopped and with no
    periodic tick installed (section 3, life cycles). *)
Definition new_manager (ps : list Policy) (i : Z) : Manager :=
  {| policies := ps; interval := i; amm_running := false; periodic_ticks := 0 |}.

(** Modelled from the spec: [start()] schedules the periodic tick; on a
    running manager it is a no-op (sections 3 and 4.4). *)
Definition start (m : Manager) : Manager :=
  if amm_running m then m
  else {| policies := policies m; interval := interval m;
          amm_running := true; periodic_ticks := S (periodic_ticks m) |}.

(** Modelled from the spec: [stop()] cancels the periodic tick; on a stopped
    manager it is a no-op (sections 3 and 4.4). *)
Definition stop (m : Manager) : Manager :=
  if amm_running m then
    {| policies := policies m; interval := interval m;
       amm_running := false; periodic_ticks := pred (periodic_ticks m) |}
  else m.

(** Values a caller may hand to [add_policy]. *)
Inductive PyObject : Type :=
| PyNone
| PyStr (s : string)
| PyInt (z : Z)
| PyPolicy (p : Policy).

Inductive PyError : Set :=
| TypeError.

(** Modelled from the spec: [add_policy] (sections 4.1 and 4.4), missing from
    the sources: a policy joins the policy set, which keeps insertion order
    and holds every policy once; any other argument raises [TypeError]. *)
Definition add_policy (m : Manager) (o : PyObject) : PyError + Manager :=
  match o with
  | PyPolicy p =>
      inr (if decide (p ∈ policies m) then m
           else {| policies := policies m ++ [p]; interval := interval m;
                   amm_running := amm_running m;
                   periodic_ticks := periodic_ticks m |})
  | _ => inl TypeError
  end.

(** Modelled from the spec: the policy pass of a tick (section 4.4, step 3):
    policies run in insertion order, one after the other, against the same
    transaction. *)
Fixpoint _run_policies (s : Scheduler) (X : Transaction) (ps : list Policy)
  : Transaction * list Decision :=
  match ps with
  | [] => (X, [])
  | p :: rest =>
      let '(X1, ds1) := run_suggestions s X (policy_run p s) in
      let '(X2, ds2) := _run_policies s X1 rest in
      (X2, ds1 ++ ds2)
  end.

(** Modelled from the spec: the calls sent to workers (section 6). *)
Inductive Rpc : Type :=
| acquire_replicas (recipient : Addr) (keys : list (Key * list Addr))
| remove_replicas (source : Addr) (keys : list Key)
| close_worker (w : Addr).

(** Modelled from the spec: dispatch of a transaction (section 4.4, step 5):
    one [acquire_replicas] per recipient with the keys to fetch and their
    current holders, one [remove_replicas] per source with the keys to
    drop. *)
Definition dispatch (s : Scheduler) (X : Transaction) : list Rpc :=
  let entries := map_to_list X in
  let recipients : gset Addr := ⋃ ((fun e : Key * (gset Addr * gset Addr) => e.2.1) <$> entries) in
  let sources : gset Addr := ⋃ ((fun e : Key * (gset Addr * gset Addr) => e.2.2) <$> entries) in
  ((fun w =>
      acquire_replicas w
        (omap (fun e : Key * (gset Addr * gset Addr) =>
                 if decide (w ∈ e.2.1)
                 then Some (e.1, elements (from_option who_has ∅ (task_of s e.1)))
                 else None) entries))
     <$> elements recipients) ++
  ((fun w =>
      remove_replicas w
        (omap (fun e : Key * (gset Addr * gset Addr) =>
                 if decide (w ∈ e.2.2) then Some e.1 else None) entries))
     <$> elements sources).

(** Modelled from the spec: [run_once] (section 4.4): an empty transaction,
    the policy pass over a snapshot of the policy set, the dispatch; policies
    that removed themselves are gone afterwards.  The scheduler state is not
    changed. *)
Definition run_once (m : Manager) (s : Scheduler)
  : Manager * Transaction * list Decision * list Rpc :=
  let '(X, ds) := _run_policies s ∅ (policies m) in
  ({| policies := filter (fun p => self_removes p s = false) (policies m);
      interval := interval m;
      amm_running := amm_running m;
      periodic_ticks := periodic_ticks m |},
   X, ds, dispatch s X).

(** Modelled from the spec: what the event loop does when one interval has
    elapsed: every installed periodic tick runs the manager once. *)
Fixpoint fire (ticks : nat) (m : Manager) (s : Scheduler) : Manager * list Rpc :=
  match ticks with
  | O => (m, [])
  | S ticks' =>
      let '(m1, _, _, out) := run_once m s in
      let '(m2, outs) := fire ticks' m1 s in
      (m2, out ++ outs)
  end.

Definition interval_elapsed (m : Manager) (s : Scheduler) : Manager * list Rpc :=
  fire (periodic_ticks m) m s.

(** *** Worker retirement *)

(** Modelled from the spec: what [retire_workers] reads and changes, the
    scheduler's workers, the manager's policy set and the calls sent
    (section 4.5). *)
Record System : Type := mk_system {
  scheduler : Scheduler;
  amm : Manager;
  rpcs : list Rpc
}.

Definition set_worker_status (a : Addr) (st : Status) (s : Scheduler) : Scheduler :=
  {| workers :=
       (fun ws =>
          if decide (address ws = a)
          then {| address := address ws; status := st;
                  memory_process := memory_process ws;
                  memory_optimistic := memory_optimistic ws;
                  has_what := has_what ws;
                  processing_keys := processing_keys ws |}
          else ws) <$> workers s;
     tasks := tasks s |}.

Definition remove_worker (a : Addr) (s : Scheduler) : Scheduler :=
  {| workers := filter (fun ws => address ws ≠ a) (workers s);
     tasks := tasks s |}.

Definition with_policies (ps : list Policy) (m : Manager) : Manager :=
  {| policies := ps; interval := interval m;
     amm_running := amm_running m; periodic_ticks := periodic_ticks m |}.

(** Modelled from the spec: step 1 of [retire_workers] (section 4.5): the
    worker is marked [closing_gracefully] and a [RetireWorker] policy is
    installed for it. *)
Definition begin_retirement (y : System) (a : Addr) : System :=
  {| scheduler := set_worker_status a closing_gracefully (scheduler y);
     amm := match add_policy (amm y) (PyPolicy (RetireWorker a)) with
            | inr m => m
            | inl _ => amm y
            end;
     rpcs := rpcs y |}.

(** Modelled from the spec: steps 4 and 5 of [retire_workers] for one
    address.  Whether the worker was emptied is decided by the ticks, the
    workers and the network that follow the request; it is given here as
    [drained].  On success the worker is deregistered when [remove] and sent
    a close call when [close_workers]; on give-up its status goes back to
    [running]; the policy is removed in both cases. *)
Definition end_retirement (close_workers remove : bool) (drained : Addr -> bool)
    (y : System) (a : Addr) : System :=
  let m := with_policies
             (filter (fun p => p ≠ RetireWorker a) (policies (amm y))) (amm y) in
  if drained a then
    {| scheduler := if remove then remove_worker a (scheduler y) else scheduler y;
       amm := m;
       rpcs := rpcs y ++ (if close_workers then [close_worker a] else []) |}
  else
    {| scheduler := set_worker_status a running (scheduler y);
       amm := m;
       rpcs := rpcs y |}.

(** Modelled from the spec: [retire_workers(addrs, close_workers, remove)]
    (section 4.5), missing from the sources.  The result is the set of
    addresses that retired. *)
Definition retire_workers (addrs : list Addr) (close_workers remove : bool)
    (drained : Addr -> bool) (y : System) : System * gset Addr :=
  let y1 := foldl begin_retirement y addrs in
  let '(m, _, _, out) := run_once (amm y1) (scheduler y1) in
  let y2 := {| scheduler := scheduler y1; amm := m; rpcs := rpcs y1 ++ out |} in
  (foldl (end_retirement close_workers remove drained) y2 addrs,
   list_to_set (filter (fun a => drained a = true) addrs)).

(** *** Notions used in the statements *)





(** The manager has installed one periodic tick when it is running and none
    when it is stopped. *)
Definition consistent (m : Manager) : Prop :=
  periodic_ticks m = if amm_running m then 1 else 0.

End AMM.

(* ===================================================================== *)
(** ** Scenarios *)
(* ===================================================================== *)

(** A cluster for the shutdown sequence: collaborators that never raise, and
    a [sync] that drives the coroutine to completion. *)
Module ClusterScenarios.
Import Cluster.

Definition never_raises : Call -> option Exn := fun _ => None.

Definition drive (m : M unit unit unit unit unit unit) (timeout : option Z)
  : M unit unit unit unit unit unit := m.

Definition local_cluster (st : Status) (async : bool)
  : cluster unit unit unit unit unit :=
  {| status := st;
     asynchronous := async;
     _adaptive := None;
     _watch_worker_status_comm := Some tt;
     _watch_worker_status_task := Some tt;
     _sync_cluster_info_task := Some tt;
     scheduler_comm := Some tt;
     periodic_callbacks := [("cluster-repr", tt)];
     calls := [] |}.

End ClusterScenarios.

(** The clusters of the test module, as the scheduler sees them when
    [run_once] is called. *)
Module Scenarios.
Import AMM.

Definition worker (a : Addr) (st : Status) (mem : Z) (held processing : list Key)
  : WorkerState :=
  {| address := a; status := st; memory_process := mem; memory_optimistic := mem;
     has_what := list_to_set held; processing_keys := list_to_set processing |}.

Definition in_memory (k : Key) (holders : list Addr) (deps : list Key) : TaskState :=
  {| key := k; who_has := list_to_set holders; waiters := list_to_set deps;
     nbytes := 28; state := memory |}.

(** [test_drop]: four workers, [x] broadcast to all of them. *)
Definition x_on_four : TaskState := in_memory "x" ["w1"; "w2"; "w3"; "w4"] [].

Definition four_workers : Scheduler :=
  {| workers := [worker "w1" running 100 ["x"] []; worker "w2" running 100 ["x"] [];
                 worker "w3" running 100 ["x"] []; worker "w4" running 100 ["x"] []];
     tasks := [x_on_four] |}.

(** [test_double_drop], [test_start_stop]: two workers hold [x]. *)
Definition x_on_two : TaskState := in_memory "x" ["a"; "b"] [].

Definition two_workers : Scheduler :=
  {| workers := [worker "a" running 100 ["x"] []; worker "b" running 100 ["x"] []];
     tasks := [x_on_two] |}.

(** [test_drop_with_waiter], first [run_once]: [y1] is processing on [a] and
    [y2] on [b]; both depend on [x]. *)
Definition x_two_waiters : TaskState := in_memory "x" ["a"; "b"] ["y1"; "y2"].

Definition y_processing (k : Key) : TaskState :=
  {| key := k; who_has := ∅; waiters := ∅; nbytes := 0; state := processing |}.

Definition both_busy : Scheduler :=
  {| workers := [worker "a" running 100 ["x"] ["y1"];
                 worker "b" running 100 ["x"] ["y2"]];
     tasks := [x_two_waiters; y_processing "y1"; y_processing "y2"] |}.



(** Like [y1_finished] with a third holder [c] of [x] that runs no
    dependent. *)
Definition x_on_three : TaskState := in_memory "x" ["a"; "b"; "c"] ["y2"].

Definition third_holder : Scheduler :=
  {| workers := [worker "a" running 100 ["x"; "y1"] [];
                 worker "b" running 100 ["x"] ["y2"];
                 worker "c" running 100 ["x"] []];
     tasks := [x_on_three; in_memory "y1" ["a"] []; y_processing "y2"] |}.

(** [test_replicate_avoids_paused_workers_1]: [x] on [w0], [w1] paused. *)
Definition x_on_w0 : TaskState := in_memory "x" ["w0"] [].

Definition one_paused : Scheduler :=
  {| workers := [worker "w0" running 100 ["x"] []; worker "w1" paused 50 [] [];
                 worker "w2" running 100 [] []];
     tasks := [x_on_w0] |}.

(** [test_drop_prefers_paused_workers] on three workers: [w1] is paused and
    uses least memory. *)
Definition x_on_three_ws : TaskState := in_memory "x" ["w0"; "w1"; "w2"] [].

Definition paused_holder : Scheduler :=
  {| workers := [worker "w0" running 300 ["x"] []; worker "w1" paused 50 ["x"] [];
                 worker "w2" running 100 ["x"] []];
     tasks := [x_on_three_ws] |}.

(** The policy of [demo_config(action, key="x", n=10, candidates=None)]. *)
Definition demo (action : Op) (n : Z) (candidates : option (list Z)) : DemoPolicy.t :=
  {| DemoPolicy.action := action; DemoPolicy.key := "x";
     DemoPolicy.n := n; DemoPolicy.candidates := candidates |}.

(** [test_RetireWorker_all_recipients_are_paused]: [x] on [a] only, [b]
    paused; the manager runs with no policy of its own. *)
Definition retiring_alone : System :=
  {| scheduler :=
       {| workers := [worker "a" running 100 ["x"] []; worker "b" paused 100 [] []];
          tasks := [in_memory "x" ["a"] []] |};
     amm := start (new_manager [] 999000);
     rpcs := [] |}.

(** [test_RetireWorker_no_recipients]: [w1] holds nothing, [w2] holds the
    only replica of [x], [w3] and [w4] both hold [y]; all four are retired at
    once.  [one_of_each] is an outcome the test accepts: [w1] and [w3] are
    emptied, [w2] and [w4] are not. *)
Definition all_retiring : System :=
  {| scheduler :=
       {| workers := [worker "w1" running 100 [] []; worker "w2" running 100 ["x"] [];
                      worker "w3" running 100 ["y"] []; worker "w4" running 100 ["y"] []];
          tasks := [in_memory "x" ["w2"] []; in_memory "y" ["w3"; "w4"] []] |};
     amm := start (new_manager [] 999000);
     rpcs := [] |}.

Definition one_of_each (a : Addr) : bool := bool_decide (a ∈ ["w1"; "w3"]).

End Scenarios.

(* ===================================================================== *)
(** ** The shutdown sequence as a list of calls *)
(* ===================================================================== *)

(** A second description of what [Cluster._close] does, to compare the
    embedding of the source with: the calls to make are read off the
    attributes of the cluster, and they are made one after the other until
    one raises an exception that no [suppress] block of the source covers. *)
Module ShutdownPlan.
Import Cluster.

Arguments _adaptive {_ _ _ _ _} _.
Arguments _watch_worker_status_comm {_ _ _ _ _} _.
Arguments _watch_worker_status_task {_ _ _ _ _} _.
Arguments _sync_cluster_info_task {_ _ _ _ _} _.
Arguments scheduler_comm {_ _ _ _ _} _.
Arguments periodic_callbacks {_ _ _ _ _} _.

Section Plan.

Context {Adaptive Comm Task Rpc PC : Type}.

Definition if_set {A} (o : option A) (l : list Call) : list Call :=
  match o with Some _ => l | None => [] end.

(** The calls of [_close] in the order of the source; an attribute that is
    [None] contributes none. *)
Definition shutdown_calls (c : cluster Adaptive Comm Task Rpc PC) : list Call :=
  if_set (_adaptive c) [adaptive_stop] ++
  if_set (_watch_worker_status_comm c) [watch_comm_close] ++
  if_set (_watch_worker_status_task c) [watch_task_await] ++
  if_set (_sync_cluster_info_task c) [sync_task_cancel; sync_task_await] ++
  if_set (scheduler_comm c) [scheduler_comm_close_rpc] ++
  (pc_stop <$> (periodic_callbacks c).*1).

(** The two [suppress] blocks of [_close]: [AttributeError] around
    [self._adaptive.stop()], [asyncio.CancelledError] around the await of the
    cancelled sync task. *)
Definition suppressed (k : Call) (e : Exn) : bool :=
  match k, e with
  | adaptive_stop, AttributeError => true
  | sync_task_await, CancelledError => true
  | _, _ => false
  end.

(** The calls made and the exception that ended them, if any. *)
Fixpoint run_calls (raises : Call -> option Exn) (l : list Call)
  : list Call * option Exn :=
  match l with
  | [] => ([], None)
  | k :: rest =>
      match raises k with
      | Some e =>
          if suppressed k e
          then let '(made, r) := run_calls raises rest in (k :: made, r)
          else ([k], Some e)
      | None => let '(made, r) := run_calls raises rest in (k :: made, r)
      end
  end.

Definition append_calls (c : cluster Adaptive Comm Task Rpc PC) (l : list Call)
  : cluster Adaptive Comm Task Rpc PC :=
  {| status := status c;
     asynchronous := asynchronous c;
     _adaptive := _adaptive c;
     _watch_worker_status_comm := _watch_worker_status_comm c;
     _watch_worker_status_task := _watch_worker_status_task c;
     _sync_cluster_info_task := _sync_cluster_info_task c;
     scheduler_comm := scheduler_comm c;
     periodic_callbacks := periodic_callbacks c;
     calls := calls c ++ l |}.

(** The cluster and the outcome after the calls [r.1] were made: status
    [done] when none raised, [failed] otherwise. *)
Definition after_calls (c : cluster Adaptive Comm Task Rpc PC) (done failed : Status)
    (r : list Call * option Exn) : cluster Adaptive Comm Task Rpc PC * (Exn + unit) :=
  ({| status := match r.2 with None => done | Some _ => failed end;
      asynchronous := asynchronous c;
      _adaptive := _adaptive c;
      _watch_worker_status_comm := _watch_worker_status_comm c;
      _watch_worker_status_task := _watch_worker_status_task c;
      _sync_cluster_info_task := _sync_cluster_info_task c;
      scheduler_comm := scheduler_comm c;
      periodic_callbacks := periodic_callbacks c;
      calls := calls c ++ r.1 |},
   match r.2 with None => inr tt | Some e => inl e end).

(** What is left to do after the calls [r.1]: raise, or go on with [K]. *)
Definition continue_with {A} (K : unit -> M Adaptive Comm Task Rpc PC A)
    (c : cluster Adaptive Comm Task Rpc PC) (r : list Call * option Exn)
  : cluster Adaptive Comm Task Rpc PC * (Exn + A) :=
  match r with
  | (made, Some e) => (append_calls c made, inl e)
  | (made, None) => K tt (append_calls c made)
  end.

End Plan.

End ShutdownPlan.

(** A cluster with an adaptive, whose [stop] raises [AttributeError], and a
    sync task whose await raises [CancelledError]. *)
Module ShutdownScenarios.
Import Cluster.

Definition adaptive_cluster : cluster unit unit unit unit unit :=
  {| status := running;
     asynchronous := false;
     _adaptive := Some tt;
     _watch_worker_status_comm := Some tt;
     _watch_worker_status_task := None;
     _sync_cluster_info_task := Some tt;
     scheduler_comm := Some tt;
     periodic_callbacks := [("cluster-repr", tt); ("adaptive", tt)];
     calls := [] |}.

Definition only_suppressed (k : Call) : option Exn :=
  match k with
  | adaptive_stop => Some AttributeError
  | sync_task_await => Some CancelledError
  | _ => None
  end.

Definition rpc_fails (k : Call) : option Exn :=
  match k with
  | scheduler_comm_close_rpc => Some RuntimeError
  | _ => None
  end.

End ShutdownScenarios.

(* ===================================================================== *)
(** ** Scheduler information held by the cluster (cluster.py) *)
(* ===================================================================== *)

(** [Cluster.scheduler_info] is a dictionary with string keys whose values
    are numbers, strings and dictionaries again; the messages of the
    scheduler that [_update_worker_status] receives are of the same kind.
    The order of the keys of a dictionary is not modelled. *)
Module Info.

Inductive Error : Type :=
| KeyError | IndexError | TypeError | ValueError | AttributeError.

#[global] Instance Error_eq_dec : EqDecision Error.
Proof. solve_decision. Defined.

#[local] Set Warnings "-register-all".

Inductive PyVal : Type :=
| PNone
| PInt (z : Z)
| PStr (s : string)
| PDict (d : gmap string PyVal).

Abbreviation dict := (gmap string PyVal).

Definition and_then {A B} (r : Error + A) (k : A -> Error + B) : Error + B :=
  match r with inl e => inl e | inr a => k a end.

(** [v[key]] for a string key. *)
Definition subscript (v : PyVal) (key : string) : Error + PyVal :=
  match v with
  | PDict d => match d !! key with Some x => inr x | None => inl KeyError end
  | _ => inl TypeError
  end.

(** [l[i]] on a list, for an index that is not negative. *)
Definition item {A} (l : list A) (i : nat) : Error + A :=
  match l !! i with Some x => inr x | None => inl IndexError end.

(** [s.split(sep)]: the pieces of [s] between the occurrences of [sep], found
    from the left and not overlapping.  [skip] counts the characters of a
    separator just found that are still to be passed over. *)
Fixpoint split_from (sep : string) (skip : nat) (s : string) : list string :=
  match s with
  | EmptyString => [""]
  | String ch rest =>
      match skip with
      | S n => split_from sep n rest
      | O =>
          if String.prefix sep s
          then "" :: split_from sep (String.length sep - 1) rest
          else match split_from sep 0 rest with
               | piece :: pieces => String ch piece :: pieces
               | [] => [String ch ""]
               end
      end
  end.

Definition split (s sep : string) : Error + list string :=
  if decide (sep = "") then inl ValueError else inr (split_from sep 0 s).

(** [scheduler_comm] is [None] or an [rpc] object, of which only the
    [address] is kept. *)
Definition scheduler_address (scheduler_comm : option string) : string :=
  match scheduler_comm with
  | None => "<Not Connected>"
  | Some address => address
  end.

Section DashboardLink.

(** [format_dashboard_link] is defined in [distributed.utils]; it is taken
    as given. *)
Variable format_dashboard_link : string -> PyVal -> string.

Definition dashboard_link (scheduler_info : dict) (scheduler_comm : option string)
  : Error + string :=
  match and_then (subscript (PDict scheduler_info) "services")
                 (fun services => subscript services "dashboard") with
  | inl KeyError => inr ""
  | inl e => inl e
  | inr port =>
      and_then (split (scheduler_address scheduler_comm) "://") (fun pieces =>
      and_then (item pieces 1) (fun after_scheme =>
      and_then (split after_scheme "/") (fun pieces =>
      and_then (item pieces 0) (fun netloc =>
      and_then (split netloc ":") (fun pieces =>
      and_then (item pieces 0) (fun host =>
      inr (format_dashboard_link host port)))))))
  end.

End DashboardLink.

(** [d.update(other)]: another dictionary is merged in, its values winning;
    an empty string has no items to merge; any other string fails on its
    first character, [None] and numbers cannot be iterated. *)
Definition dict_update (d : dict) (other : PyVal) : Error + dict :=
  match other with
  | PDict o => inr (o ∪ d)
  | PStr EmptyString => inr d
  | PStr _ => inl ValueError
  | PNone | PInt _ => inl TypeError
  end.

(** The result is the dictionary [scheduler_info] and the message after the
    call (an "add" message loses its "workers" entry to [pop]), with the
    outcome. *)
Definition _update_worker_status (op : string) (msg : PyVal) (scheduler_info : dict)
  : dict * PyVal * (Error + unit) :=
  if decide (op = "add") then
    match msg with
    | PDict m =>
        match m !! "workers" with
        | None => (scheduler_info, msg, inl KeyError)
        | Some workers =>
            let msg' := delete "workers" m in
            match scheduler_info !! "workers" with
            | None => (scheduler_info, PDict msg', inl KeyError)
            | Some (PDict known) =>
                match dict_update known workers with
                | inl e => (scheduler_info, PDict msg', inl e)
                | inr known' =>
                    (msg' ∪ <["workers" := PDict known']> scheduler_info,
                     PDict msg', inr tt)
                end
            | Some _ => (scheduler_info, PDict msg', inl AttributeError)
            end
        end
    | _ => (scheduler_info, msg, inl AttributeError)
    end
  else if decide (op = "remove") then
    match scheduler_info !! "workers" with
    | None => (scheduler_info, msg, inl KeyError)
    | Some (PDict known) =>
        match msg with
        | PStr address =>
            match known !! address with
            | Some _ =>
                (<["workers" := PDict (delete address known)]> scheduler_info,
                 msg, inr tt)
            | None => (scheduler_info, msg, inl KeyError)
            end
        | PDict _ => (scheduler_info, msg, inl TypeError)
        | PNone | PInt _ => (scheduler_info, msg, inl KeyError)
        end
    | Some _ => (scheduler_info, msg, inl TypeError)
    end
  else (scheduler_info, msg, inl ValueError).

(** [scheduler_info["workers"]] is a dictionary. *)
Definition has_workers (scheduler_info : dict) : Prop :=
  exists known, scheduler_info !! "workers" = Some (PDict known).

(** Does [c] occur in [s]; does [sep] occur in [s]. *)
Fixpoint has_char (c : Ascii.ascii) (s : string) : bool :=
  match s with
  | EmptyString => false
  | String ch rest => bool_decide (ch = c) || has_char c rest
  end.

Fixpoint occurs (sep s : string) : bool :=
  match s with
  | EmptyString => String.prefix sep ""
  | String _ rest => String.prefix sep s || occurs sep rest
  end.

(** The first piece of a split made longer at its front. *)
Definition prepend (h : string) (pieces : list string) : list string :=
  match pieces with
  | piece :: rest => (h +:+ piece) :: rest
  | [] => [h]
  end.

(** What may follow the host in an address: nothing, a port or a path. *)
Definition ends_host (tail : string) : bool :=
  match tail with
  | EmptyString => true
  | String ch _ => bool_decide (ch = ":"%char) || bool_decide (ch = "/"%char)
  end.

End Info.

Module InfoScenarios.
Import Info.

Definition link (host : string) (port : PyVal) : string :=
  match port with
  | PInt p => "http://" +:+ host +:+ ":" +:+ pretty p +:+ "/status"
  | _ => "http://" +:+ host +:+ "/status"
  end.

Definition worker_info (name : string) (nthreads : Z) : PyVal :=
  PDict {[ "name" := PStr name; "nthreads" := PInt nthreads ]}.

(** [scheduler_info] after [__init__] and once connected to a scheduler with
    one worker and a dashboard. *)
Definition fresh : dict := {[ "workers" := PDict ∅ ]}.

Definition connected : dict :=
  {[ "workers" := PDict {[ "tcp://10.0.0.2:40001" := worker_info "w0" 2 ]};
     "services" := PDict {[ "dashboard" := PInt 8787 ]} ]}.

Definition add_w1 : PyVal :=
  PDict {[ "workers" := PDict {[ "tcp://10.0.0.3:40002" := worker_info "w1" 4 ]};
           "type" := PStr "Scheduler" ]}.

End InfoScenarios.

(* ===================================================================== *)
(** ** Name, logs, adaptivity and the sync loop (cluster.py) *)
(* ===================================================================== *)

(** [Cluster.__init__] builds the instance's [_cluster_info] from the name
    given, the type name and the class-level [_cluster_info]; the [name]
    property reads and writes its "name" entry. *)
Module ClusterInfo.
Import Info.

(** [uuid8] is [str(uuid.uuid4())[:8]], [type_name] is
    [typename(type(self))]; a later key of the dictionary display wins. *)
Definition __init__ (name : PyVal) (uuid8 type_name : string)
    (class_cluster_info : dict) : dict :=
  let name := match name with PNone => PStr uuid8 | _ => name end in
  class_cluster_info ∪ {[ "name" := name; "type" := PStr type_name ]}.

Definition name (_cluster_info : dict) : Error + PyVal :=
  subscript (PDict _cluster_info) "name".

Definition set_name (name : PyVal) (_cluster_info : dict) : dict :=
  <["name" := name]> _cluster_info.

End ClusterInfo.

(** [_log], [_get_logs]: the messages of the cluster manager and the logs
    fetched from the scheduler. *)
Module Logs.
Import Info.

(** ["\n"] and [sep.join(l)]. *)
Definition newline : string := String "010"%char "".

Definition join (sep : string) (l : list string) : string := String.concat sep l.

(** The [workers] argument: a boolean or a list of addresses. *)
Inductive WorkersArg : Type :=
| WBool (b : bool)
| WList (l : list string).

Definition truthy (workers : WorkersArg) : bool :=
  match workers with
  | WBool b => b
  | WList [] => false
  | WList _ => true
  end.

(** What the scheduler answers to [get_logs()] and to
    [worker_logs(workers=...)]: pairs of a level and a line, for the workers
    by address, in the order of the dictionary received. *)
Record Rpc : Type := {
  get_logs : list (string * string);
  worker_logs : option (list string) -> list (string * list (string * string))
}.

Inductive RpcCall : Type :=
| call_get_logs
| call_worker_logs (workers : option (list string)).

Section WithTime.

Variable Time : Type.

Record cluster : Type := {
  _cluster_manager_logs : list (Time * string);
  quiet : bool;
  printed : list string;
  scheduler_comm : option Rpc
}.

(** [now] is [datetime.datetime.now()]. *)
Definition _log (now : Time) (log : string) (c : cluster) : cluster :=
  {| _cluster_manager_logs := _cluster_manager_logs c ++ [(now, log)];
     quiet := quiet c;
     printed := if quiet c then printed c else printed c ++ [log];
     scheduler_comm := scheduler_comm c |}.

(** The calls made to the scheduler and the [Logs] returned, or the
    [AttributeError] of a call on a [scheduler_comm] that is [None]. *)
Definition _get_logs (cluster_logs scheduler : bool) (workers : WorkersArg)
    (c : cluster) : list RpcCall * (Error + gmap string string) :=
  let logs : gmap string string := ∅ in
  let logs :=
    if cluster_logs
    then <["Cluster" := join newline (snd <$> _cluster_manager_logs c)]> logs
    else logs in
  let after_scheduler : list RpcCall * (Error + gmap string string) :=
    if scheduler then
      match scheduler_comm c with
      | None => ([], inl AttributeError)
      | Some rpc =>
          ([call_get_logs],
           inr (<["Scheduler" := join newline (snd <$> get_logs rpc)]> logs))
      end
    else ([], inr logs) in
  match after_scheduler with
  | (made, inl e) => (made, inl e)
  | (made, inr logs) =>
      if truthy workers then
        let workers := match workers with WBool _ => None | WList l => Some l end in
        match scheduler_comm c with
        | None => (made, inl AttributeError)
        | Some rpc =>
            (made ++ [call_worker_logs workers],
             inr (foldl (fun logs kv => <[kv.1 := join newline (snd <$> kv.2)]> logs)
                        logs (worker_logs rpc workers)))
        end
      else (made, inr logs)
  end.

(** [_log] called for each of [entries] in turn. *)
Definition log_all (entries : list (Time * string)) (c : cluster) : cluster :=
  foldl (fun c entry => _log entry.1 entry.2 c) c entries.

End WithTime.

Arguments _cluster_manager_logs {_} _.
Arguments quiet {_} _.
Arguments printed {_} _.
Arguments scheduler_comm {_} _.
Arguments _log {_} _ _ _.
Arguments _get_logs {_} _ _ _ _.
Arguments log_all {_} _ _.

End Logs.

(** [adapt(Adaptive, **kwargs)]. *)
Module Adaptivity.

Section WithAdaptive.

(** The values of the keyword arguments, the adaptive objects, the class
    [Adaptive] called with the options (the cluster it also receives is left
    out), and what [stop()] of an adaptive raises. *)
Variables V A : Type.
Variable Adaptive : gmap string V -> A.
Variable stop_raises : A -> option Cluster.Exn.

(** [_adaptive_options] is [None] as long as the attribute does not exist;
    [stopped] lists the adaptives on which [stop()] was called. *)
Record cluster : Type := {
  _adaptive : option A;
  _adaptive_options : option (gmap string V);
  stopped : list A
}.

Definition adapt (kwargs : gmap string V) (c : cluster)
  : cluster * (Cluster.Exn + A) :=
  let c1 :=
    match _adaptive c with
    | Some a => {| _adaptive := _adaptive c;
                   _adaptive_options := _adaptive_options c;
                   stopped := stopped c ++ [a] |}
    | None => c
    end in
  let raised :=
    match _adaptive c with
    | Some a => stop_raises a
    | None => Some Cluster.AttributeError
    end in
  let go :=
    let options := kwargs ∪ default ∅ (_adaptive_options c1) in
    let a := Adaptive options in
    ({| _adaptive := Some a;
        _adaptive_options := Some options;
        stopped := stopped c1 |}, inr a) in
  match raised with
  | Some e => if decide (e = Cluster.AttributeError) then go else (c1, inl e)
  | None => go
  end.

(** [adapt] called with each of [calls] in turn, up to the first that
    raises. *)
Fixpoint adapt_all (calls : list (gmap string V)) (c : cluster)
  : cluster * option Cluster.Exn :=
  match calls with
  | [] => (c, None)
  | kwargs :: rest =>
      match adapt kwargs c with
      | (c', inl e) => (c', Some e)
      | (c', inr _) => adapt_all rest c'
      end
  end.

(** The value of [key] in the latest of [calls] that gives one. *)
Definition latest (key : string) (calls : list (gmap string V)) : option V :=
  foldl (fun found kwargs =>
           match kwargs !! key with Some v => Some v | None => found end)
        None calls.

(** The adaptives made by [calls], each from the options so far. *)
Fixpoint created (options : gmap string V) (calls : list (gmap string V)) : list A :=
  match calls with
  | [] => []
  | kwargs :: rest => Adaptive (kwargs ∪ options) :: created (kwargs ∪ options) rest
  end.

End WithAdaptive.

Arguments _adaptive {_ _} _.
Arguments _adaptive_options {_ _} _.
Arguments stopped {_ _} _.
Arguments adapt {_ _} _ _ _ _.
Arguments adapt_all {_ _} _ _ _ _.
Arguments latest {_} _ _.
Arguments created {_ _} _ _ _.

End Adaptivity.

(** [_sync_cluster_info]: the loop that pushes [_cluster_info] to the
    scheduler.  What happens around it is given turn by turn: the status
    read at the head of the loop, how [set_metadata] ends, and whether the
    task is cancelled while it sleeps. *)
Module SyncInfo.

Inductive Attempt : Type :=
| Sent
| Cancelled
| Failed.

#[global] Instance Attempt_eq_dec : EqDecision Attempt.
Proof. solve_decision. Defined.

Record Turn : Type := {
  status_now : Status;
  set_metadata : Attempt;
  sleep_cancelled : bool
}.

(** [sleep n] stands for
    [asyncio.sleep(min(max_interval, self._sync_interval * 1.5**n))]. *)
Inductive Event : Type :=
| call_set_metadata (a : Attempt)
| warning
| sleep (err_count : nat).

#[global] Instance Event_eq_dec : EqDecision Event.
Proof. solve_decision. Defined.

(** The coroutine returned, was cancelled in its sleep, or waits for more. *)
Inductive Ending : Type :=
| returned
| raised_CancelledError
| pending.

Definition warn_at : nat := 5.

Fixpoint loop (err_count : nat) (turns : list Turn) : list Event * Ending :=
  match turns with
  | [] => ([], pending)
  | t :: rest =>
      if decide (status_now t = running) then
        match set_metadata t with
        | Cancelled => ([call_set_metadata Cancelled], returned)
        | outcome =>
            let err_count := match outcome with Sent => 0 | _ => S err_count end in
            let warned :=
              match outcome with
              | Sent => []
              | _ => if decide (err_count = warn_at) then [warning] else []
              end in
            let '(events, ending) :=
              if sleep_cancelled t then ([], raised_CancelledError)
              else loop err_count rest in
            (call_set_metadata outcome :: warned ++ sleep err_count :: events, ending)
        end
      else ([], returned)
  end.

Definition _sync_cluster_info (turns : list Turn) : list Event * Ending :=
  loop 0 turns.

Definition count (e : Event) (events : list Event) : nat :=
  length (filter (fun x => x = e) events).

(** A turn in which the cluster runs and the attempt fails. *)
Definition failing : Turn :=
  {| status_now := running; set_metadata := Failed; sleep_cancelled := false |}.

End SyncInfo.

(* ===================================================================== *)
(** ** [DropEverything] of the test module *)
(* ===================================================================== *)

Module DropEverything.
Import AMM.

(** The policy counts its runs in [i]. *)
Record t : Type := mk { i : Z }.

Definition __init__ : t := {| i := 0 |}.

Section Run.

(** [random.shuffle]: the order chosen for the holders of the task with the
    given key. *)
Variable shuffle : Key -> list Addr -> list Addr.

(** One run to its end: the suggestions yielded, the policy afterwards, and
    whether it removed itself from [manager.policies]. *)
Definition run (p : t) (s : Scheduler) : list Suggestion * t * bool :=
  (flat_map
     (fun ts =>
        (fun ws => (drop, key ts, Some ({[ ws ]} : gset Addr))) <$>
          shuffle (key ts) (elements (who_has ts)))
     (tasks s),
   {| i := i p + 1 |},
   bool_decide (i p + 1 = 20)%Z).

(** Runs one after the other, on the scheduler states given: did the run
    remove the policy. *)
Fixpoint runs (p : t) (states : list Scheduler) : list bool :=
  match states with
  | [] => []
  | s :: rest => let '(_, p', removed) := run p s in removed :: runs p' rest
  end.

End Run.

End DropEverything.

(* ===================================================================== *)
(** ** Watching the scheduler for workers (cluster.py) *)
(* ===================================================================== *)

(** [_watch_worker_status] reads batches of messages from the scheduler and
    hands each message to [_update_worker_status], until a read fails with
    [OSError]; then it closes the comm. *)
Module Watch.
Import Info.

(** What [comm.read()] gives: a batch of [(op, msg)] pairs, or [OSError]. *)
Inductive Read : Type :=
| messages (msgs : list (string * PyVal))
| OSError.

(** The coroutine closed the comm and returned, ended with an exception of
    [_update_worker_status], or waits for the next read. *)
Inductive Outcome : Type :=
| comm_closed
| raised (e : Error)
| reading.

(** The [for] loop over one batch: it ends at the first message that
    raises. *)
Fixpoint update_all (msgs : list (string * PyVal)) (scheduler_info : dict)
  : dict * (Error + unit) :=
  match msgs with
  | [] => (scheduler_info, inr tt)
  | (op, msg) :: rest =>
      match _update_worker_status op msg scheduler_info with
      | (scheduler_info', _, inl e) => (scheduler_info', inl e)
      | (scheduler_info', _, inr _) => update_all rest scheduler_info'
      end
  end.

Section WithLogErrors.

(** [log_errors] is defined in [distributed.utils]; whether it lets the
    exception it has logged pass is taken as given. *)
Variable log_errors_reraises : bool.

Fixpoint _watch_worker_status (reads : list Read) (scheduler_info : dict)
  : dict * Outcome :=
  match reads with
  | [] => (scheduler_info, reading)
  | OSError :: _ => (scheduler_info, comm_closed)
  | messages msgs :: rest =>
      match update_all msgs scheduler_info with
      | (scheduler_info', inl e) =>
          if log_errors_reraises then (scheduler_info', raised e)
          else _watch_worker_status rest scheduler_info'
      | (scheduler_info', inr _) => _watch_worker_status rest scheduler_info'
      end
  end.

End WithLogErrors.

(** The messages of the batches read, in the order read. *)
Definition stream (reads : list Read) : list (string * PyVal) :=
  flat_map (fun r => match r with messages msgs => msgs | OSError => [] end) reads.

End Watch.

(* ===================================================================== *)
(** ** Properties of cluster shutdown *)
(* ===================================================================== *)

Module ClusterFacts.
Import Cluster.

Section Shutdown.

Context {Adaptive Comm Task Rpc PC : Type}.
Variable raises : Call -> option Exn.
Context {SyncVal : Type}.
Variable sync :
  M Adaptive Comm Task Rpc PC unit -> option Z -> M Adaptive Comm Task Rpc PC SyncVal.

Implicit Types c : cluster Adaptive Comm Task Rpc PC.

Lemma bind_returns {A B} (m : M Adaptive Comm Task Rpc PC A)
    (k : A -> M Adaptive Comm Task Rpc PC B) c c' b :
  bind _ _ _ _ _ m k c = (c', inr b) ->
  exists c1 a, m c = (c1, inr a) /\ k a c1 = (c', inr b).
Proof.
  unfold bind. destruct (m c) as [c1 [e|a]]; intros H.
  - discriminate H.
  - exists c1, a. split; [reflexivity | exact H].
Qed.

Lemma _close_closed c : status c = closed -> _close raises c = (c, inr tt).
Proof.
  intros H. unfold _close.
  destruct (decide (status c = closed)) as [_|Hn]; [reflexivity | contradiction].
Qed.

(** A run that reaches the end of [_close] leaves [status = closed]: either
    the guard returned at once, or the last assignment was executed. *)
Lemma _close_completed_status c c' :
  _close raises c = (c', inr tt) -> status c' = closed.
Proof.
  unfold _close. destruct (decide (status c = closed)) as [Hc|Hc]; intros H.
  - inversion H; subst. exact Hc.
  - repeat (apply bind_returns in H; destruct H as (? & ? & _ & H)).
    inversion H. reflexivity.
Qed.

(** C10. Shutdown is idempotent.  On a cluster whose status is already
    [closed], [close()] returns at once (the no-op awaitable in asynchronous
    mode, [None] otherwise) and [_close()] returns without making any call of
    the shutdown sequence: the cluster, its call trace included, is unchanged.
    Every [_close()] that runs to completion ends with [status = closed], so a
    second [_close()] after it changes nothing. *)
Theorem close_idempotent c (timeout : option Z) :
  status c = closed ->
  close raises sync timeout c =
    (c, inr (if asynchronous c then RetNoOpAwaitable else RetNone))
  /\ _close raises c = (c, inr tt)
  /\ (forall c0 c1,
        _close raises c0 = (c1, inr tt) ->
        status c1 = closed /\ _close raises c1 = (c1, inr tt)).
Proof.
  intros Hc. split; [|split].
  - unfold close. destruct (decide (status c = closed)) as [_|Hn]; [|contradiction].
    destruct (asynchronous c); reflexivity.
  - apply _close_closed, Hc.
  - intros c0 c1 H. pose proof (_close_completed_status _ _ H) as Hs.
    split; [exact Hs | apply _close_closed, Hs].
Qed.

End Shutdown.

Import ClusterScenarios.

(** A first [_close] on a running cluster makes the calls of the shutdown
    sequence in the order of the source ([_adaptive] is [None], so the
    [AttributeError] is suppressed and nothing is stopped there) and ends
    [closed]. *)
Example _close_running :
  _close never_raises (local_cluster running false) =
    ({| status := closed;
        asynchronous := false;
        _adaptive := None;
        _watch_worker_status_comm := Some tt;
        _watch_worker_status_task := Some tt;
        _sync_cluster_info_task := Some tt;
        scheduler_comm := Some tt;
        periodic_callbacks := [("cluster-repr", tt)];
        calls := [watch_comm_close; watch_task_await; sync_task_cancel;
                  sync_task_await; scheduler_comm_close_rpc;
                  pc_stop "cluster-repr"] |},
     inr tt).
Proof. reflexivity. Qed.

(** A collaborator that raises stops the sequence: the cluster stays
    [closing], so a later [close()] runs the sequence again. *)
Example _close_interrupted :
  _close (fun k => if decide (k = scheduler_comm_close_rpc)
                   then Some (OtherError "OSError") else None)
         (local_cluster running false) =
    ({| status := closing;
        asynchronous := false;
        _adaptive := None;
        _watch_worker_status_comm := Some tt;
        _watch_worker_status_task := Some tt;
        _sync_cluster_info_task := Some tt;
        scheduler_comm := Some tt;
        periodic_callbacks := [("cluster-repr", tt)];
        calls := [watch_comm_close; watch_task_await; sync_task_cancel;
                  sync_task_await; scheduler_comm_close_rpc] |},
     inl (OtherError "OSError")).
Proof. reflexivity. Qed.

Lemma close_idempotent_witness :
  status (local_cluster closed true) = closed /\
  close never_raises drive None (local_cluster closed true) =
    (local_cluster closed true, inr RetNoOpAwaitable) /\
  _close never_raises (local_cluster closed true) =
    (local_cluster closed true, inr tt).
Proof.
  split; [reflexivity|].
  destruct (close_idempotent never_raises drive (local_cluster closed true) None eq_refl)
    as (H1 & H2 & _).
  split; [exact H1 | exact H2].
Defined.

End ClusterFacts.

(* ===================================================================== *)
(** ** Properties of the Active Memory Manager *)
(* ===================================================================== *)

Module AMMFacts.
Import AMM.

(** *** Selection *)


Lemma pick_None better (S : gset Addr) :
  pick better S = None <-> S = ∅.
Proof.
  unfold pick. split.
  - intros H. apply leibniz_equiv, elements_empty_inv.
    destruct (elements S) as [|a l]; [reflexivity|].
    cbn in H. destruct (foldr _ None l) as [b|]; [destruct (better a b)|]; discriminate.
  - intros ->. rewrite elements_empty. reflexivity.
Qed.

Lemma pick_is_Some better (S : gset Addr) :
  S ≠ ∅ -> exists w, pick better S = Some w.
Proof.
  intros H. destruct (pick better S) as [w|] eqn:E; [eauto|].
  apply pick_None in E. contradiction.
Qed.




(** *** Tasks and transactions *)










(** *** The two branches of the arbiter *)









(** *** [DemoPolicy.run] on a scheduler whose task keys are distinct *)




(** *** Repeated drops with nil candidates *)







(** *** Ticks *)







(** *** Last replica preservation *)


Import Scenarios.

(** The second scenario of the specification on the two-worker cluster of the
    test module: [a] and [b] use the same memory, the tie goes to the lower
    address. *)
Example never_drop_the_last :
  run_suggestions two_workers ∅ (DemoPolicy.run (demo drop 10 None) two_workers) =
    ({["x" := (∅, {["a"]})]},
     Accept "a" :: repeat (Reject (Some less_than_2_replicas)) 9).
Proof. vm_compute. reflexivity. Qed.



(** *** Holders with waiters *)




(** With a third holder that runs no dependent, the same worker is dropped. *)
Example waiter_free_holder_dropped :
  arbiter third_holder ∅ (drop, "x", Some {["a"]}) =
    ({["x" := (∅, {["a"]})]}, Accept "a").
Proof. vm_compute. reflexivity. Qed.

(** [test_drop_with_waiter], first [run_once]: nothing is dropped. *)
Example both_busy_no_drop :
  run_suggestions both_busy ∅ (DemoPolicy.run (demo drop 10 None) both_busy) =
    (∅, repeat (Reject (Some no_eligible_holder)) 10).
Proof. vm_compute. reflexivity. Qed.


(** *** Choice of the recipient and of the drop source *)


(** [test_replicate_avoids_paused_workers_1]: [w1] is paused and uses least
    memory, [w2] is chosen. *)
Example paused_worker_excluded :
  arbiter one_paused ∅ (replicate, "x", None) =
    ({["x" := ({["w2"]}, ∅)]}, Accept "w2").
Proof. vm_compute. reflexivity. Qed.



(** [test_drop_prefers_paused_workers]: the paused holder is chosen although
    it uses least memory. *)
Example paused_holder_first :
  arbiter paused_holder ∅ (drop, "x", None) =
    ({["x" := (∅, {["w1"]})]}, Accept "w1").
Proof. vm_compute. reflexivity. Qed.


(** *** Repeated drop suggestions for one task *)


(** [test_drop]: [n=5] drops against 4 replicas give three acceptances and two
    rejections, as in the log the test expects. *)
Example five_drops_of_four :
  (run_suggestions four_workers ∅ (DemoPolicy.run (demo drop 5 None) four_workers)).2 =
    [Accept "w1"; Accept "w2"; Accept "w3";
     Reject (Some less_than_2_replicas); Reject (Some less_than_2_replicas)].
Proof. vm_compute. reflexivity. Qed.



(** *** Empty candidate sets *)






(** [test_drop_with_empty_candidates] and
    [test_replicate_with_empty_candidates]. *)
Example empty_candidates_tests :
  run_suggestions two_workers ∅ (DemoPolicy.run (demo drop 10 (Some [])) two_workers) =
    (∅, repeat (Reject None) 10)
  /\ run_suggestions one_paused ∅ (DemoPolicy.run (demo replicate 10 (Some [])) one_paused) =
    (∅, repeat (Reject None) 10).
Proof. split; vm_compute; reflexivity. Qed.

(** *** Life cycle of the manager *)

Lemma new_manager_consistent ps i : consistent (new_manager ps i).
Proof. reflexivity. Qed.

Lemma start_consistent m : consistent m -> consistent (start m).
Proof.
  unfold consistent, start. destruct (amm_running m) eqn:E; cbn.
  - rewrite E. auto.
  - intros ->. reflexivity.
Qed.

Lemma stop_consistent m : consistent m -> consistent (stop m).
Proof.
  unfold consistent, stop. destruct (amm_running m) eqn:E; cbn.
  - intros ->. reflexivity.
  - rewrite E. auto.
Qed.

(** C8. [start()] and [stop()] are idempotent.  A second [start()] leaves the
    manager as the first one did, with exactly one periodic tick installed,
    and a second [stop()] leaves it as the first one did, with none; once
    stopped, the passing of an interval sends nothing to the workers, and a
    new [start()] installs the periodic tick again. *)
Theorem start_stop_idempotent m s :
  start (start m) = start m
  /\ stop (stop m) = stop m
  /\ (consistent m ->
      periodic_ticks (start (start m)) = 1
      /\ amm_running (start (start m)) = true
      /\ periodic_ticks (stop (stop m)) = 0
      /\ amm_running (stop (stop m)) = false
      /\ interval_elapsed (stop (stop m)) s = (stop m, [])
      /\ periodic_ticks (start (stop m)) = 1).
Proof.
  split; [|split].
  - unfold start. destruct (amm_running m) eqn:E; cbn; [rewrite E|]; reflexivity.
  - unfold stop. destruct (amm_running m) eqn:E; cbn; [|rewrite E]; reflexivity.
  - unfold consistent, interval_elapsed, start, stop.
    destruct m as [ps i r t]. cbn. destruct r; cbn; intros ->; cbn; repeat split.
Qed.

(** [test_start_stop] on the two-worker cluster: while the manager runs, an
    elapsed interval dispatches the drop of one replica; after a double stop
    it dispatches nothing. *)
Example start_stop_test :
  (interval_elapsed (start (start (new_manager [Demo (demo drop 10 None)] 100)))
                    two_workers).2 = [remove_replicas "a" ["x"]]
  /\ (interval_elapsed
        (stop (stop (start (start (new_manager [Demo (demo drop 10 None)] 100)))))
        two_workers).2 = [].
Proof. split; vm_compute; reflexivity. Qed.

(** *** [add_policy] *)



(** *** Worker retirement *)














(** [test_RetireWorker_all_recipients_are_paused]: [a] holds the only replica
    of [x] and the other worker is paused, so [a] cannot be drained; the
    result is empty, [a] is [running] again and the policy set is empty. *)
Example retire_without_recipient :
  let out := retire_workers ["a"] false true (fun _ => false) retiring_alone in
  out.2 = ∅
  /\ status_of (scheduler out.1) "a" = running
  /\ policies (amm out.1) = []
  /\ rpcs out.1 = [].
Proof. vm_compute. repeat split. Qed.

(** The same cluster while the request is pending: [a] is retiring, its
    policy is installed, and the arbiter finds no running recipient. *)
Example retire_pending :
  let y1 := begin_retirement retiring_alone "a" in
  status_of (scheduler y1) "a" = closing_gracefully
  /\ policies (amm y1) = [RetireWorker "a"]
  /\ (run_once (amm y1) (scheduler y1)).1.2 =
       [Reject (Some all_recipients_paused); Reject (Some less_than_2_replicas)].
Proof. vm_compute. repeat split. Qed.
(** [test_RetireWorker_no_recipients] with the outcome [one_of_each]: the
    result is [{w1, w3}], the workers left are [w2] and [w4], both [running]
    again, and no policy is left. *)
Example retire_all_at_once :
  let out := retire_workers ["w1"; "w2"; "w3"; "w4"] false true one_of_each all_retiring in
  out.2 = {["w1"; "w3"]}
  /\ (fun ws => (address ws, status ws)) <$> workers (scheduler out.1) =
       [("w2", running); ("w4", running)]
  /\ policies (amm out.1) = [].
Proof. vm_compute. repeat split. Qed.

End AMMFacts.

(* ===================================================================== *)
(** ** The shutdown sequence of [Cluster._close] *)
(* ===================================================================== *)

Module ShutdownFacts.
Import Cluster ShutdownPlan.

Section Sequence.

Context {Adaptive Comm Task Rpc PC : Type}.
Variable raises : Call -> option Exn.
Implicit Types c : cluster Adaptive Comm Task Rpc PC.

Lemma run_calls_app l1 l2 :
  run_calls raises (l1 ++ l2) =
    match run_calls raises l1 with
    | (d1, Some e) => (d1, Some e)
    | (d1, None) => let '(d2, r) := run_calls raises l2 in (d1 ++ d2, r)
    end.
Proof.
  induction l1 as [|k l1 IH]; cbn.
  - destruct (run_calls raises l2); reflexivity.
  - destruct (raises k) as [e|].
    + destruct (suppressed k e); [|reflexivity]. rewrite IH.
      destruct (run_calls raises l1) as [d1 [e1|]]; [reflexivity|].
      destruct (run_calls raises l2); reflexivity.
    + rewrite IH. destruct (run_calls raises l1) as [d1 [e1|]]; [reflexivity|].
      destruct (run_calls raises l2); reflexivity.
Qed.

Lemma append_calls_nil c : append_calls c [] = c.
Proof. destruct c. unfold append_calls. cbn. rewrite app_nil_r. reflexivity. Qed.

Lemma append_calls_app c l1 l2 :
  append_calls (append_calls c l1) l2 = append_calls c (l1 ++ l2).
Proof. unfold append_calls. cbn. rewrite app_assoc. reflexivity. Qed.

Lemma step_call {A} (K : unit -> M Adaptive Comm Task Rpc PC A) k c :
  (forall e, suppressed k e = false) ->
  bind _ _ _ _ _ (call raises k) K c = continue_with K c (run_calls raises [k]).
Proof.
  intros Hk. unfold bind, call, continue_with. cbn.
  destruct (raises k) as [e|]; [rewrite Hk|]; reflexivity.
Qed.

Lemma step_when {A B} (o : cluster Adaptive Comm Task Rpc PC -> option B)
    (K : unit -> M Adaptive Comm Task Rpc PC A) k c :
  (forall e, suppressed k e = false) ->
  bind _ _ _ _ _ (when_set _ _ _ _ _ o (call raises k)) K c =
    continue_with K c (run_calls raises (if_set (o c) [k])).
Proof.
  intros Hk. unfold bind, when_set. destruct (o c); cbn [if_set].
  - apply (step_call K k c Hk).
  - cbn. rewrite append_calls_nil. reflexivity.
Qed.

Lemma step_adaptive {A} (K : unit -> M Adaptive Comm Task Rpc PC A) c :
  bind _ _ _ _ _ (suppress _ _ _ _ _ AttributeError (stop_adaptive _ _ _ _ _ raises)) K c =
    continue_with K c (run_calls raises (if_set (_adaptive c) [adaptive_stop])).
Proof.
  unfold bind, suppress, stop_adaptive, call, continue_with.
  destruct (_adaptive c); cbn.
  - destruct (raises adaptive_stop) as [[]|]; reflexivity.
  - rewrite append_calls_nil. reflexivity.
Qed.

Lemma step_sync_task {A} (K : unit -> M Adaptive Comm Task Rpc PC A) c :
  bind _ _ _ _ _
    (when_set _ _ _ _ _ _sync_cluster_info_task
       (bind _ _ _ _ _ (call raises sync_task_cancel)
          (fun _ => suppress _ _ _ _ _ CancelledError (call raises sync_task_await)))) K c =
    continue_with K c
      (run_calls raises (if_set (_sync_cluster_info_task c) [sync_task_cancel; sync_task_await])).
Proof.
  unfold bind, when_set, suppress, call, continue_with.
  destruct (_sync_cluster_info_task c); cbn.
  - destruct (raises sync_task_cancel) as [e|]; [reflexivity|]. cbn.
    destruct (raises sync_task_await) as [[]|]; cbn;
      unfold append_calls, record_call; cbn; rewrite <- ?app_assoc; reflexivity.
  - rewrite append_calls_nil. reflexivity.
Qed.

Lemma stop_all_plan pcs c :
  stop_all raises pcs c =
    after_calls c (status c) (status c) (run_calls raises (pc_stop <$> pcs.*1)).
Proof.
  revert c. induction pcs as [|[name pc] rest IH]; intros c.
  - destruct c. unfold after_calls. cbn. rewrite app_nil_r. reflexivity.
  - cbn [stop_all fmap list_fmap fst run_calls]. unfold bind, call.
    destruct (raises (pc_stop name)) as [e|] eqn:E.
    + cbn. destruct c. unfold after_calls, record_call. cbn. reflexivity.
    + rewrite IH. destruct (run_calls raises (pc_stop <$> rest.*1)) as [done r].
      destruct c. unfold after_calls, record_call. cbn.
      rewrite <- app_assoc. destruct r; reflexivity.
Qed.

Lemma continue_app {A} (K K' : unit -> M Adaptive Comm Task Rpc PC A) c l1 l2 :
  (forall d, K tt (append_calls c d) =
             continue_with K' (append_calls c d) (run_calls raises l2)) ->
  continue_with K c (run_calls raises l1) =
  continue_with K' c (run_calls raises (l1 ++ l2)).
Proof.
  intros HK. rewrite run_calls_app. unfold continue_with at 1 2.
  destruct (run_calls raises l1) as [d1 [e1|]]; [reflexivity|].
  rewrite HK. unfold continue_with.
  destruct (run_calls raises l2) as [d2 [e2|]]; rewrite append_calls_app; reflexivity.
Qed.

Lemma continue_last c l :
  continue_with (fun _ c' => (set_status closed c', inr tt))
                (set_status closing c) (run_calls raises l) =
  after_calls c closed closing (run_calls raises l).
Proof.
  unfold continue_with, after_calls.
  destruct (run_calls raises l) as [d [e|]]; reflexivity.
Qed.

Lemma step_stop_all {A} (K : unit -> M Adaptive Comm Task Rpc PC A) c :
  bind _ _ _ _ _ (fun c' => stop_all raises (periodic_callbacks c') c') K c =
    continue_with K c (run_calls raises (pc_stop <$> (periodic_callbacks c).*1)).
Proof.
  unfold bind. rewrite stop_all_plan. unfold after_calls, continue_with.
  destruct (run_calls raises _) as [d [e|]]; cbn [fst snd].
  - destruct c; reflexivity.
  - destruct c; reflexivity.
Qed.

Lemma _close_plan c :
  status c ≠ closed ->
  _close raises c = after_calls c closed closing (run_calls raises (shutdown_calls c)).
Proof.
  intros Hc. unfold _close. destruct (decide (status c = closed)) as [|_]; [contradiction|].
  clear Hc. rewrite <- continue_last.
  change (shutdown_calls c) with (shutdown_calls (set_status closing c)).
  unfold bind at 1. cbn beta iota.
  generalize (set_status closing c). clear c. intros c.
  unfold shutdown_calls.
  rewrite step_adaptive. apply continue_app. intros d1. cbn beta.
  rewrite step_when by reflexivity. apply continue_app. intros d2. cbn beta.
  rewrite step_when by reflexivity. apply continue_app. intros d3. cbn beta.
  rewrite step_sync_task. apply continue_app. intros d4. cbn beta.
  rewrite step_when by reflexivity. apply continue_app. intros d5. cbn beta.
  rewrite step_stop_all. reflexivity.
Qed.
Lemma run_calls_all l :
  (forall k e, k ∈ l -> raises k = Some e -> suppressed k e = true) ->
  run_calls raises l = (l, None).
Proof.
  induction l as [|k l IH]; intros H; [reflexivity|]. cbn.
  rewrite IH by (intros k' e' Hk'; apply H; right; exact Hk').
  destruct (raises k) as [e|] eqn:E; [|reflexivity].
  rewrite (H k e); [reflexivity | left | exact E].
Qed.

Lemma run_calls_raised l made e :
  run_calls raises l = (made, Some e) ->
  exists before k rest,
    l = before ++ k :: rest /\ made = before ++ [k] /\
    raises k = Some e /\ suppressed k e = false.
Proof.
  revert made. induction l as [|k l IH]; intros made H; [discriminate H|].
  cbn in H.
  assert (Hgo : forall made', (let '(made0, r) := run_calls raises l in (k :: made0, r)) = (made', Some e) ->
            exists before k0 rest, k :: l = before ++ k0 :: rest /\ made' = before ++ [k0] /\
              raises k0 = Some e /\ suppressed k0 e = false).
  { intros made' H'. destruct (run_calls raises l) as [made0 r] eqn:E.
    inversion H'; subst. destruct (IH made0 eq_refl) as (b & k0 & rest & -> & -> & Hr & Hs).
    exists (k :: b), k0, rest. repeat split; assumption. }
  destruct (raises k) as [e0|] eqn:Ek.
  - destruct (suppressed k e0) eqn:Es.
    + apply Hgo, H.
    + inversion H; subst. exists [], k, l. repeat split; assumption.
  - apply Hgo, H.
Qed.

(** X1. [_close] on a cluster that is not yet closed is the run of its
    shutdown sequence: status [closing] is set, then the calls of
    [shutdown_calls] are made in that order (an attribute that is [None] is
    skipped) up to the first one that raises; an [AttributeError] of
    [adaptive.stop()] and a [CancelledError] of the awaited sync task do not
    count.  When no call raised the status ends [closed]; otherwise it stays
    [closing] and the exception leaves [_close].  Nothing else of the cluster
    changes. *)
Theorem _close_runs_shutdown_calls c :
  status c ≠ closed ->
  _close raises c = after_calls c closed closing (run_calls raises (shutdown_calls c)).
Proof. exact (_close_plan c). Qed.

(** X2. When every call of the shutdown sequence returns, or raises only what
    its [suppress] block covers, [_close] completes: each handle that is set
    is shut down exactly once, in the order of the source, the status is
    [closed] and the handles themselves are left in place. *)
Theorem _close_completes c :
  status c ≠ closed ->
  (forall k e, k ∈ shutdown_calls c -> raises k = Some e -> suppressed k e = true) ->
  _close raises c =
    ({| status := closed;
        asynchronous := asynchronous c;
        _adaptive := _adaptive c;
        _watch_worker_status_comm := _watch_worker_status_comm c;
        _watch_worker_status_task := _watch_worker_status_task c;
        _sync_cluster_info_task := _sync_cluster_info_task c;
        scheduler_comm := scheduler_comm c;
        periodic_callbacks := periodic_callbacks c;
        calls := calls c ++ shutdown_calls c |}, inr tt).
Proof.
  intros Hc Hall. rewrite (_close_plan c Hc), (run_calls_all _ Hall). reflexivity.
Qed.

(** X3. When [_close] raises, the cluster is left [closing], not [closed]:
    the calls made are the shutdown sequence up to and including the call
    that raised, the later ones (the periodic callbacks among them) were not
    made, and since no handle was cleared a second [_close] starts the same
    sequence again from its first call. *)
Theorem _close_failure_keeps_closing c c' e :
  status c ≠ closed ->
  _close raises c = (c', inl e) ->
  status c' = closing
  /\ (exists before k rest,
        shutdown_calls c = before ++ k :: rest /\
        calls c' = calls c ++ before ++ [k] /\
        raises k = Some e /\ suppressed k e = false)
  /\ shutdown_calls c' = shutdown_calls c
  /\ _close raises c' =
       after_calls c' closed closing (run_calls raises (shutdown_calls c)).
Proof.
  intros Hc H. rewrite (_close_plan c Hc) in H.
  destruct (run_calls raises (shutdown_calls c)) as [made [e0|]] eqn:E;
    unfold after_calls in H; cbn [fst snd] in H; inversion H; subst; clear H.
  split; [reflexivity|]. split.
  - destruct (run_calls_raised _ _ _ E) as (b & k & rest & Hl & -> & Hr & Hs).
    exists b, k, rest. repeat split; assumption.
  - split; [reflexivity|]. rewrite _close_plan by (cbn; discriminate).
    f_equal. exact E.
Qed.

Context {SyncVal : Type}.
Variable sync :
  M Adaptive Comm Task Rpc PC unit -> option Z -> M Adaptive Comm Task Rpc PC SyncVal.

(** X4. [close()] never raises [RuntimeError]: the [suppress] block turns it
    into a normal return of [None].  With a [sync] that hands the exception
    of the coroutine to its caller, a [RuntimeError] raised by a call of the
    shutdown sequence therefore goes unnoticed: [close()] returns [None] as
    after a completed shutdown, although the cluster is still [closing]. *)
Theorem close_hides_RuntimeError c (timeout : option Z) :
  status c ≠ closed ->
  (forall c', close raises sync timeout c ≠ (c', inl RuntimeError))
  /\ (forall c',
        _close raises c = (c', inl RuntimeError) ->
        sync (_close raises) timeout c = (c', inl RuntimeError) ->
        close raises sync timeout c = (c', inr RetNone) /\ status c' = closing).
Proof.
  intros Hc. split.
  - intros c' H. unfold close in H.
    destruct (decide (status c = closed)) as [|_]; [contradiction|].
    destruct (sync (_close raises) timeout c) as [c1 [e|v]].
    + destruct (decide (e = RuntimeError)) as [|Hn]; [discriminate H|].
      inversion H; subst. apply Hn. reflexivity.
    + discriminate H.
  - intros c' H Hs. split.
    + unfold close. destruct (decide (status c = closed)) as [|_]; [contradiction|].
      rewrite Hs. reflexivity.
    + rewrite (_close_plan c Hc) in H.
      destruct (run_calls raises (shutdown_calls c)) as [made [e0|]];
        unfold after_calls in H; cbn [fst snd] in H; inversion H; reflexivity.
Qed.

End Sequence.

Import ClusterScenarios ShutdownScenarios.

Lemma _close_runs_shutdown_calls_witness :
  status adaptive_cluster ≠ closed /\
  _close rpc_fails adaptive_cluster =
    after_calls adaptive_cluster closed closing
      ([adaptive_stop; watch_comm_close; sync_task_cancel; sync_task_await;
        scheduler_comm_close_rpc], Some RuntimeError).
Proof.
  split; [discriminate|].
  apply (_close_runs_shutdown_calls rpc_fails adaptive_cluster). discriminate.
Defined.

Lemma _close_completes_witness :
  status adaptive_cluster ≠ closed /\
  (_close only_suppressed adaptive_cluster).2 = inr tt /\
  calls (_close only_suppressed adaptive_cluster).1 =
    [adaptive_stop; watch_comm_close; sync_task_cancel; sync_task_await;
     scheduler_comm_close_rpc; pc_stop "cluster-repr"; pc_stop "adaptive"].
Proof.
  split; [discriminate|].
  assert (H : forall k e, k ∈ shutdown_calls adaptive_cluster ->
                only_suppressed k = Some e -> suppressed k e = true).
  { intros k e _ E. destruct k; cbn in E; inversion E; reflexivity. }
  rewrite (_close_completes only_suppressed adaptive_cluster
             ltac:(discriminate) H).
  split; reflexivity.
Defined.

Lemma _close_failure_keeps_closing_witness :
  status adaptive_cluster ≠ closed /\
  status (_close rpc_fails adaptive_cluster).1 = closing.
Proof.
  split; [discriminate|].
  apply (_close_failure_keeps_closing rpc_fails adaptive_cluster
           (_close rpc_fails adaptive_cluster).1 RuntimeError);
    [discriminate | reflexivity].
Defined.

Lemma close_hides_RuntimeError_witness :
  status adaptive_cluster ≠ closed /\
  (close rpc_fails drive None adaptive_cluster).2 = inr RetNone /\
  status (close rpc_fails drive None adaptive_cluster).1 = closing.
Proof.
  split; [discriminate|].
  destruct (close_hides_RuntimeError rpc_fails drive adaptive_cluster None
              ltac:(discriminate)) as [_ H].
  destruct (H (_close rpc_fails adaptive_cluster).1 eq_refl eq_refl) as [H1 H2].
  rewrite H1. split; [reflexivity | exact H2].
Defined.

End ShutdownFacts.

(* ===================================================================== *)
(** ** Properties of the scheduler information *)
(* ===================================================================== *)

Module InfoFacts.
Import Info.

Lemma append_cons (ch : Ascii.ascii) (s t : string) :
  String ch s +:+ t = String ch (s +:+ t).
Proof. reflexivity. Qed.

Lemma append_empty_r (s : string) : s +:+ "" = s.
Proof.
  induction s as [|ch s IH]; [reflexivity|]. rewrite append_cons, IH. reflexivity.
Qed.

Lemma prefix_empty (s : string) : String.prefix "" s = true.
Proof. destruct s; reflexivity. Qed.

Lemma prefix_append (sep t : string) : String.prefix sep (sep +:+ t) = true.
Proof.
  induction sep as [|ch sep IH]; [destruct t; reflexivity|]. rewrite append_cons. cbn.
  destruct (Ascii.ascii_dec ch ch) as [_|Hn]; [exact IH | contradiction].
Qed.

Lemma prefix_other_char (c0 ch : Ascii.ascii) (sep' rest : string) :
  ch ≠ c0 -> String.prefix (String c0 sep') (String ch rest) = false.
Proof.
  intros Hn. cbn. destruct (Ascii.ascii_dec c0 ch) as [->|_]; [contradiction | reflexivity].
Qed.

Lemma split_from_nonempty (sep : string) (skip : nat) (s : string) :
  split_from sep skip s ≠ [].
Proof.
  revert skip. induction s as [|ch s IH]; intros skip; cbn [split_from]; [discriminate|].
  destruct skip as [|n]; [|apply IH].
  destruct (String.prefix sep (String ch s)); [discriminate|].
  destruct (split_from sep 0 s); discriminate.
Qed.

Lemma split_from_skip (sep x t : string) :
  split_from sep (String.length x) (x +:+ t) = split_from sep 0 t.
Proof.
  induction x as [|ch x IH]; [reflexivity|]. rewrite append_cons. cbn. exact IH.
Qed.

(** A separator at the front gives an empty first piece. *)
Lemma split_from_sep (c0 : Ascii.ascii) (sep' t : string) :
  split_from (String c0 sep') 0 (String c0 sep' +:+ t) =
    "" :: split_from (String c0 sep') 0 t.
Proof.
  change (String c0 sep' +:+ t) with (String c0 (sep' +:+ t)).
  cbn [split_from].
  change (String c0 (sep' +:+ t)) with (String c0 sep' +:+ t).
  rewrite prefix_append.
  change (String.length (String c0 sep') - 1) with (String.length sep' - 0).
  rewrite Nat.sub_0_r, split_from_skip. reflexivity.
Qed.

(** Characters other than the first of the separator go to the first piece. *)
Lemma split_from_prepend (c0 : Ascii.ascii) (sep' h t : string) :
  has_char c0 h = false ->
  split_from (String c0 sep') 0 (h +:+ t) = prepend h (split_from (String c0 sep') 0 t).
Proof.
  induction h as [|ch h IH]; intros Hh.
  - change ("" +:+ t) with t. unfold prepend.
    pose proof (split_from_nonempty (String c0 sep') 0 t) as Hne.
    destruct (split_from (String c0 sep') 0 t); [contradiction | reflexivity].
  - cbn [has_char] in Hh. apply orb_false_iff in Hh as [Hch Hh].
    apply bool_decide_eq_false in Hch.
    change (String ch h +:+ t) with (String ch (h +:+ t)).
    cbn [split_from]. rewrite (prefix_other_char c0 ch sep' _ Hch).
    rewrite (IH Hh).
    pose proof (split_from_nonempty (String c0 sep') 0 t) as Hne.
    destruct (split_from (String c0 sep') 0 t); [contradiction | reflexivity].
Qed.

Lemma split_from_absent (sep s : string) :
  occurs sep s = false -> split_from sep 0 s = [s].
Proof.
  induction s as [|ch s IH]; intros H; [reflexivity|].
  cbn [occurs] in H. apply orb_false_iff in H as [Hp Hr].
  cbn [split_from]. rewrite Hp, (IH Hr). reflexivity.
Qed.

(** After the host nothing of what follows survives the three splits. *)
Lemma host_tail_dropped (tail p q r : string) (ps qs rs : list string) :
  ends_host tail = true ->
  split_from "://" 0 tail = p :: ps ->
  split_from "/" 0 p = q :: qs ->
  split_from ":" 0 q = r :: rs ->
  r = "".
Proof.
  intros Ht Hp Hq Hr. destruct tail as [|ch t].
  - cbn in Hp. inversion Hp; subst. cbn in Hq. inversion Hq; subst.
    cbn in Hr. inversion Hr; reflexivity.
  - cbn [ends_host] in Ht. apply orb_true_iff in Ht as [Hc|Hc];
      apply bool_decide_eq_true in Hc; subst ch.
    + cbn [split_from] in Hp.
      destruct (String.prefix "://" (String ":" t)).
      * inversion Hp; subst. cbn in Hq. inversion Hq; subst.
        cbn in Hr. inversion Hr; reflexivity.
      * pose proof (split_from_nonempty "://" 0 t) as Hne.
        destruct (split_from "://" 0 t) as [|p' ps']; [contradiction|].
        inversion Hp; subst. cbn [split_from] in Hq.
        rewrite (prefix_other_char "/" ":" "" p') in Hq by discriminate.
        pose proof (split_from_nonempty "/" 0 p') as Hne'.
        destruct (split_from "/" 0 p') as [|q' qs']; [contradiction|].
        inversion Hq; subst. cbn in Hr. rewrite prefix_empty in Hr.
        inversion Hr; reflexivity.
    + cbn [split_from] in Hp.
      rewrite (prefix_other_char ":" "/" "//" t) in Hp by discriminate.
      pose proof (split_from_nonempty "://" 0 t) as Hne.
      destruct (split_from "://" 0 t) as [|p' ps']; [contradiction|].
      inversion Hp; subst. cbn in Hq. rewrite prefix_empty in Hq.
      inversion Hq; subst. cbn in Hr. inversion Hr; reflexivity.
Qed.

Section Link.

Variable format_dashboard_link : string -> PyVal -> string.

(** X5. Without a dashboard service in [scheduler_info] (no "services"
    entry, or one without "dashboard") [dashboard_link] is the empty string,
    whatever the scheduler address, also when the cluster is not connected:
    the address is not looked at. *)
Theorem dashboard_link_without_service (scheduler_info : dict)
    (scheduler_comm : option string) :
  (scheduler_info !! "services" = None \/
   exists services, scheduler_info !! "services" = Some (PDict services) /\
                    services !! "dashboard" = None) ->
  dashboard_link format_dashboard_link scheduler_info scheduler_comm = inr "".
Proof.
  intros [H|(services & H & Hd)]; unfold dashboard_link; cbn [subscript and_then];
    rewrite H; cbn [and_then subscript]; [|rewrite Hd]; reflexivity.
Qed.

(** X6. With a dashboard service, [dashboard_link] raises [IndexError]
    when the scheduler address has no "://" in it; this is so for a cluster
    that is not connected, whose address reads "<Not Connected>". *)
Theorem dashboard_link_needs_scheme (scheduler_info services : dict) (port : PyVal)
    (scheduler_comm : option string) :
  scheduler_info !! "services" = Some (PDict services) ->
  services !! "dashboard" = Some port ->
  occurs "://" (scheduler_address scheduler_comm) = false ->
  dashboard_link format_dashboard_link scheduler_info scheduler_comm = inl IndexError
  /\ dashboard_link format_dashboard_link scheduler_info None = inl IndexError.
Proof.
  intros H Hd Ho.
  assert (Hgen : forall sc, occurs "://" (scheduler_address sc) = false ->
            dashboard_link format_dashboard_link scheduler_info sc = inl IndexError).
  { intros sc Hsc. unfold dashboard_link. cbn [subscript and_then].
    rewrite H. cbn [and_then subscript]. rewrite Hd.
    unfold split. destruct (decide ("://" = "")) as [Heq|_]; [discriminate Heq|].
    cbn [and_then]. rewrite (split_from_absent _ _ Hsc). reflexivity. }
  split; [apply Hgen, Ho | apply Hgen; reflexivity].
Qed.

(** X7. For a scheduler address [scheme://host] followed by nothing, by a
    port or by a path, where the scheme has no colon and the host neither a
    colon nor a slash, [dashboard_link] formats exactly that host with the
    port of the dashboard service. *)
Theorem dashboard_link_host (scheduler_info services : dict) (port : PyVal)
    (scheme host tail : string) :
  scheduler_info !! "services" = Some (PDict services) ->
  services !! "dashboard" = Some port ->
  has_char ":" scheme = false ->
  has_char ":" host = false ->
  has_char "/" host = false ->
  ends_host tail = true ->
  dashboard_link format_dashboard_link scheduler_info
                 (Some (scheme +:+ "://" +:+ host +:+ tail)) =
    inr (format_dashboard_link host port).
Proof.
  intros H Hd Hs Hh1 Hh2 Ht. unfold dashboard_link. cbn [subscript and_then].
  rewrite H. cbn [and_then subscript]. rewrite Hd. cbn [scheduler_address].
  unfold split.
  destruct (decide ("://" = "")) as [Heq|_]; [discriminate Heq|].
  destruct (decide ("/" = "")) as [Heq|_]; [discriminate Heq|].
  destruct (decide (":" = "")) as [Heq|_]; [discriminate Heq|].
  cbn [and_then].
  rewrite (split_from_prepend ":" "//" scheme _ Hs).
  rewrite (split_from_sep ":" "//").
  rewrite (split_from_prepend ":" "//" host _ Hh1).
  pose proof (split_from_nonempty "://" 0 tail) as Hne.
  destruct (split_from "://" 0 tail) as [|p ps] eqn:Ep; [contradiction|].
  cbn [prepend item lookup list_lookup and_then].
  rewrite (split_from_prepend "/" "" host _ Hh2).
  pose proof (split_from_nonempty "/" 0 p) as Hne'.
  destruct (split_from "/" 0 p) as [|q qs] eqn:Eq; [contradiction|].
  cbn [prepend item lookup list_lookup and_then].
  rewrite (split_from_prepend ":" "" host _ Hh1).
  pose proof (split_from_nonempty ":" 0 q) as Hne''.
  destruct (split_from ":" 0 q) as [|r rs] eqn:Er; [contradiction|].
  cbn [prepend item lookup list_lookup and_then].
  rewrite (host_tail_dropped tail p q r ps qs rs Ht Ep Eq Er), append_empty_r.
  reflexivity.
Qed.

End Link.

Lemma update_add_ok (scheduler_info known m new : dict) :
  scheduler_info !! "workers" = Some (PDict known) ->
  m !! "workers" = Some (PDict new) ->
  _update_worker_status "add" (PDict m) scheduler_info =
    (delete "workers" m ∪ <["workers" := PDict (new ∪ known)]> scheduler_info,
     PDict (delete "workers" m), inr tt).
Proof.
  intros Hk Hm. unfold _update_worker_status.
  destruct (decide ("add" = "add")) as [_|Hn]; [|contradiction].
  rewrite Hm, Hk. reflexivity.
Qed.

Lemma update_remove_ok (scheduler_info known : dict) (address : string) :
  scheduler_info !! "workers" = Some (PDict known) ->
  _update_worker_status "remove" (PStr address) scheduler_info =
    match known !! address with
    | Some _ => (<["workers" := PDict (delete address known)]> scheduler_info,
                 PStr address, inr tt)
    | None => (scheduler_info, PStr address, inl KeyError)
    end.
Proof.
  intros Hk. unfold _update_worker_status.
  destruct (decide ("remove" = "add")) as [Hn|_]; [discriminate Hn|].
  destruct (decide ("remove" = "remove")) as [_|Hn]; [|contradiction].
  rewrite Hk. reflexivity.
Qed.

Lemma update_keeps_workers (op : string) (msg : PyVal)
    (scheduler_info : dict) :
  has_workers scheduler_info ->
  has_workers (_update_worker_status op msg scheduler_info).1.1.
Proof.
  intros [known Hk]. unfold _update_worker_status.
  destruct (decide (op = "add")) as [_|_].
  - destruct msg as [| |?|m]; try (exists known; exact Hk).
    destruct (m !! "workers") as [workers|]; [|exists known; exact Hk].
    rewrite Hk. destruct (dict_update known workers) as [e|known'];
      [exists known; exact Hk|].
    exists known'. cbn [fst].
    rewrite lookup_union_r by apply lookup_delete_eq.
    apply lookup_insert_eq.
  - destruct (decide (op = "remove")) as [_|_]; [|exists known; exact Hk].
    rewrite Hk. destruct msg as [| |address|m]; try (exists known; exact Hk).
    destruct (known !! address); [|exists known; exact Hk].
    exists (delete address known). cbn [fst]. apply lookup_insert_eq.
Qed.

(** X8. Once [scheduler_info["workers"]] is a dictionary, as [__init__]
    leaves it, it stays one through every call of [_update_worker_status],
    whatever the operation and the message and whether the call raises: the
    message of an "add" cannot replace it, since "workers" is popped from
    the message before the rest is merged in. *)
Theorem _update_worker_status_keeps_workers (op : string) (msg : PyVal)
    (scheduler_info : dict) :
  has_workers scheduler_info ->
  has_workers (_update_worker_status op msg scheduler_info).1.1.
Proof. exact (update_keeps_workers op msg scheduler_info). Qed.


(** X10. An "add" whose message carries a dictionary of workers succeeds:
    afterwards [scheduler_info["workers"]] holds the workers of the message
    and the workers known before that the message does not mention; every
    other key of [scheduler_info] has the value of the message where the
    message has that key and its old value otherwise; and the message has
    lost its "workers" entry. *)
Theorem _update_worker_status_add (scheduler_info known m new : dict) :
  scheduler_info !! "workers" = Some (PDict known) ->
  m !! "workers" = Some (PDict new) ->
  exists scheduler_info',
    _update_worker_status "add" (PDict m) scheduler_info =
      (scheduler_info', PDict (delete "workers" m), inr tt)
    /\ scheduler_info' !! "workers" = Some (PDict (new ∪ known))
    /\ (forall address,
          (new ∪ known) !! address =
            match new !! address with
            | Some w => Some w
            | None => known !! address
            end)
    /\ (forall key, key ≠ "workers" ->
          scheduler_info' !! key =
            match m !! key with
            | Some v => Some v
            | None => scheduler_info !! key
            end).
Proof.
  intros Hk Hm. eexists. split; [apply (update_add_ok _ _ _ _ Hk Hm)|].
  split; [|split].
  - rewrite lookup_union_r by apply lookup_delete_eq. apply lookup_insert_eq.
  - intros address. destruct (new !! address) as [w|] eqn:E.
    + apply lookup_union_Some_l, E.
    + rewrite lookup_union_r by exact E. reflexivity.
  - intros key Hkey. destruct (m !! key) as [v|] eqn:E.
    + apply lookup_union_Some_l. rewrite lookup_delete_ne by congruence. exact E.
    + rewrite lookup_union_r by (rewrite lookup_delete_ne by congruence; exact E).
      apply lookup_insert_ne. congruence.
Qed.

(** X11. Adding one worker that was not known and removing it again gives
    back the dictionary of workers as it was; of the "add" message only the
    other keys remain merged into [scheduler_info]. *)
Theorem _update_worker_status_add_remove (scheduler_info known m : dict)
    (address : string) (w : PyVal) :
  scheduler_info !! "workers" = Some (PDict known) ->
  known !! address = None ->
  m !! "workers" = Some (PDict {[ address := w ]}) ->
  let added := _update_worker_status "add" (PDict m) scheduler_info in
  added.2 = inr tt /\
  _update_worker_status "remove" (PStr address) added.1.1 =
    (delete "workers" m ∪ scheduler_info, PStr address, inr tt).
Proof.
  intros Hk Ha Hm added. subst added.
  rewrite (update_add_ok _ _ _ _ Hk Hm). cbn [fst snd]. split; [reflexivity|].
  erewrite update_remove_ok;
    [|rewrite lookup_union_r by apply lookup_delete_eq; apply lookup_insert_eq].
  rewrite (lookup_union_Some_l _ _ _ w) by apply lookup_singleton_eq.
  f_equal. f_equal.
  rewrite delete_union, delete_singleton_eq, (left_id_L ∅ (∪)).
  rewrite delete_id by exact Ha.
  apply map_eq. intros key. destruct (decide (key = "workers")) as [->|Hn].
  - rewrite lookup_insert_eq.
    rewrite !lookup_union_r by apply lookup_delete_eq. symmetry. exact Hk.
  - rewrite lookup_insert_ne by congruence.
    destruct (delete "workers" m !! key) as [v|] eqn:E.
    + rewrite !(lookup_union_Some_l _ _ _ v) by exact E. reflexivity.
    + rewrite !lookup_union_r by exact E. apply lookup_insert_ne. congruence.
Qed.

(** X12. A "remove" succeeds exactly for an address that is known; the
    other workers and the other keys of [scheduler_info] are untouched, and
    removing the same address once more raises [KeyError]. *)
Theorem _update_worker_status_remove (scheduler_info known : dict) (address : string) :
  scheduler_info !! "workers" = Some (PDict known) ->
  let removed := _update_worker_status "remove" (PStr address) scheduler_info in
  (known !! address = None -> removed = (scheduler_info, PStr address, inl KeyError))
  /\ (is_Some (known !! address) ->
        removed = (<["workers" := PDict (delete address known)]> scheduler_info,
                   PStr address, inr tt)
        /\ _update_worker_status "remove" (PStr address) removed.1.1 =
             (removed.1.1, PStr address, inl KeyError)).
Proof.
  intros Hk removed. subst removed. rewrite (update_remove_ok _ _ _ Hk). split.
  - intros ->. reflexivity.
  - intros [w ->]. split; [reflexivity|]. cbn [fst].
    erewrite update_remove_ok by apply lookup_insert_eq.
    rewrite lookup_delete_eq. reflexivity.
Qed.

Import InfoScenarios.

(** [split] on some strings, as Python evaluates them. *)
Example split_examples :
  split "tcp://127.0.0.1:8786" "://" = inr ["tcp"; "127.0.0.1:8786"]
  /\ split "a,b,,c," "," = inr ["a"; "b"; ""; "c"; ""]
  /\ split "aaa" "aa" = inr [""; "a"]
  /\ split "" "/" = inr [""]
  /\ split "<Not Connected>" "://" = inr ["<Not Connected>"]
  /\ split "abc" "" = inl ValueError.
Proof. repeat split; reflexivity. Qed.

(** For an IPv6 address the host handed to [format_dashboard_link] is the
    opening bracket. *)
Example dashboard_link_ipv6 :
  dashboard_link link connected (Some "tcp://[::1]:8786") = inr "http://[:8787/status".
Proof. vm_compute. reflexivity. Qed.

Lemma dashboard_link_without_service_witness :
  (fresh !! "services" = None \/
   exists services, fresh !! "services" = Some (PDict services) /\
                    services !! "dashboard" = None) /\
  dashboard_link link fresh (Some "tcp://10.0.0.1:8786") = inr "".
Proof.
  split; [left; reflexivity|].
  apply (dashboard_link_without_service link fresh). left. reflexivity.
Defined.

Lemma dashboard_link_needs_scheme_witness :
  connected !! "services" = Some (PDict {[ "dashboard" := PInt 8787 ]}) /\
  ({[ "dashboard" := PInt 8787 ]} : dict) !! "dashboard" = Some (PInt 8787) /\
  occurs "://" (scheduler_address (Some "10.0.0.1:8786")) = false /\
  dashboard_link link connected (Some "10.0.0.1:8786") = inl IndexError /\
  dashboard_link link connected None = inl IndexError.
Proof.
  split; [reflexivity|]. split; [reflexivity|]. split; [reflexivity|].
  apply (dashboard_link_needs_scheme link connected
           {[ "dashboard" := PInt 8787 ]} (PInt 8787) (Some "10.0.0.1:8786"));
    reflexivity.
Defined.

Lemma dashboard_link_host_witness :
  connected !! "services" = Some (PDict {[ "dashboard" := PInt 8787 ]}) /\
  ({[ "dashboard" := PInt 8787 ]} : dict) !! "dashboard" = Some (PInt 8787) /\
  has_char ":" "tcp" = false /\
  has_char ":" "10.0.0.1" = false /\
  has_char "/" "10.0.0.1" = false /\
  ends_host ":8786" = true /\
  dashboard_link link connected (Some "tcp://10.0.0.1:8786") =
    inr (link "10.0.0.1" (PInt 8787)).
Proof.
  repeat (split; [reflexivity|]).
  apply (dashboard_link_host link connected {[ "dashboard" := PInt 8787 ]}
           (PInt 8787) "tcp" "10.0.0.1" ":8786"); reflexivity.
Defined.

Lemma _update_worker_status_keeps_workers_witness :
  has_workers fresh /\
  has_workers (_update_worker_status "add" add_w1 fresh).1.1.
Proof.
  assert (H : has_workers fresh) by (exists ∅; reflexivity).
  split; [exact H|].
  apply (_update_worker_status_keeps_workers "add" add_w1 fresh H).
Defined.


Lemma _update_worker_status_add_witness :
  fresh !! "workers" = Some (PDict ∅) /\
  ({[ "workers" := PDict {[ "tcp://10.0.0.3:40002" := worker_info "w1" 4 ]};
      "type" := PStr "Scheduler" ]} : dict) !! "workers" =
    Some (PDict {[ "tcp://10.0.0.3:40002" := worker_info "w1" 4 ]}) /\
  exists scheduler_info',
    _update_worker_status "add" add_w1 fresh =
      (scheduler_info', PDict {[ "type" := PStr "Scheduler" ]}, inr tt) /\
    scheduler_info' !! "type" = Some (PStr "Scheduler").
Proof.
  split; [reflexivity|]. split; [reflexivity|].
  destruct (_update_worker_status_add fresh ∅
              {[ "workers" := PDict {[ "tcp://10.0.0.3:40002" := worker_info "w1" 4 ]};
                 "type" := PStr "Scheduler" ]}
              {[ "tcp://10.0.0.3:40002" := worker_info "w1" 4 ]}
              ltac:(reflexivity) ltac:(reflexivity)) as (info' & H1 & _ & _ & H2).
  exists info'. split; [exact H1|].
  rewrite (H2 "type") by discriminate. reflexivity.
Defined.

Lemma _update_worker_status_add_remove_witness :
  fresh !! "workers" = Some (PDict ∅) /\
  (∅ : dict) !! "tcp://10.0.0.3:40002" = None /\
  _update_worker_status "remove" (PStr "tcp://10.0.0.3:40002")
    (_update_worker_status "add" add_w1 fresh).1.1 =
    ({[ "type" := PStr "Scheduler" ]} ∪ fresh, PStr "tcp://10.0.0.3:40002", inr tt).
Proof.
  split; [reflexivity|]. split; [reflexivity|].
  destruct (_update_worker_status_add_remove fresh ∅
              {[ "workers" := PDict {[ "tcp://10.0.0.3:40002" := worker_info "w1" 4 ]};
                 "type" := PStr "Scheduler" ]}
              "tcp://10.0.0.3:40002" (worker_info "w1" 4)
              ltac:(reflexivity) ltac:(reflexivity) ltac:(reflexivity)) as [_ H].
  exact H.
Defined.

Lemma _update_worker_status_remove_witness :
  connected !! "workers" =
    Some (PDict {[ "tcp://10.0.0.2:40001" := worker_info "w0" 2 ]}) /\
  _update_worker_status "remove" (PStr "tcp://10.0.0.9:1") connected =
    (connected, PStr "tcp://10.0.0.9:1", inl KeyError).
Proof.
  split; [reflexivity|].
  destruct (_update_worker_status_remove connected
              {[ "tcp://10.0.0.2:40001" := worker_info "w0" 2 ]}
              "tcp://10.0.0.9:1" ltac:(reflexivity)) as [H _].
  apply H. reflexivity.
Defined.

End InfoFacts.

(* ===================================================================== *)
(** ** Properties of the name, the logs, adaptivity and the sync loop *)
(* ===================================================================== *)

Module ClusterInfoFacts.
Import Info ClusterInfo.

(** X13. After [__init__] the [name] of the cluster is the "name" of the
    class-level [_cluster_info] when that has one, whatever name was given;
    otherwise it is the name given, or the eight characters of a fresh uuid
    when [None] was given.  Setting the name makes [name] return it and
    leaves every other entry of [_cluster_info] alone. *)
Theorem name_after_init (given : PyVal) (uuid8 type_name : string)
    (class_cluster_info : dict) :
  name (__init__ given uuid8 type_name class_cluster_info) =
    inr (match class_cluster_info !! "name" with
         | Some v => v
         | None => match given with PNone => PStr uuid8 | _ => given end
         end)
  /\ (forall v info,
        name (set_name v info) = inr v /\
        forall key, key ≠ "name" -> set_name v info !! key = info !! key).
Proof.
  split.
  - unfold name, __init__, subscript.
    destruct (class_cluster_info !! "name") as [v|] eqn:E.
    + rewrite (lookup_union_Some_l _ _ _ v) by exact E. reflexivity.
    + rewrite lookup_union_r by exact E. rewrite lookup_insert_eq. reflexivity.
  - intros v info. split.
    + unfold name, set_name, subscript. rewrite lookup_insert_eq. reflexivity.
    + intros key Hk. unfold set_name. apply lookup_insert_ne. congruence.
Qed.

End ClusterInfoFacts.

Module LogsFacts.
Import Info Logs.

Section WithTime.

Context {Time : Type}.
Implicit Types c : cluster Time.

Lemma log_all_spec (entries : list (Time * string)) c :
  _cluster_manager_logs (log_all entries c) = _cluster_manager_logs c ++ entries
  /\ printed (log_all entries c) =
       printed c ++ (if quiet c then [] else entries.*2)
  /\ quiet (log_all entries c) = quiet c
  /\ scheduler_comm (log_all entries c) = scheduler_comm c.
Proof.
  revert c. induction entries as [|[now log] entries IH]; intros c.
  - cbn. destruct (quiet c); rewrite !app_nil_r; repeat split; reflexivity.
  - change (log_all ((now, log) :: entries) c) with (log_all entries (_log now log c)).
    destruct (IH (_log now log c)) as (H1 & H2 & H3 & H4).
    rewrite H1, H2, H3, H4. cbn. rewrite <- !app_assoc.
    destruct (quiet c); cbn; rewrite <- ?app_assoc; repeat split; reflexivity.
Qed.

(** X14. The cluster's own log is what [_log] was given, in that order, one
    message per line and without the time stamps, whether or not the
    cluster is [quiet] ([quiet] only decides what is printed).  Asking for
    it alone makes no call to the scheduler, so it also works on a cluster
    that is not connected; an empty list of workers counts as no workers. *)
Theorem _get_logs_cluster_only (entries : list (Time * string)) c :
  let c' := log_all entries c in
  _get_logs true false (WBool false) c' =
    ([], inr {[ "Cluster" :=
                  join newline ((_cluster_manager_logs c).*2 ++ entries.*2) ]})
  /\ _get_logs true false (WList []) c' = _get_logs true false (WBool false) c'
  /\ printed c' = printed c ++ (if quiet c then [] else entries.*2).
Proof.
  intros c'. subst c'. destruct (log_all_spec entries c) as (H1 & H2 & _ & _).
  split; [|split; [reflexivity | exact H2]].
  unfold _get_logs. cbn [truthy]. rewrite H1, fmap_app. reflexivity.
Qed.

(** X15. On a cluster that is not connected ([scheduler_comm] is [None])
    [_get_logs] raises [AttributeError] exactly when the scheduler's log or
    the logs of workers are asked for. *)
Theorem _get_logs_disconnected (cluster_logs scheduler : bool)
    (workers : WorkersArg) c :
  scheduler_comm c = None ->
  ((_get_logs cluster_logs scheduler workers c).2 = inl AttributeError <->
   scheduler = true \/ truthy workers = true)
  /\ (_get_logs cluster_logs scheduler workers c).1 = [].
Proof.
  intros Hc. unfold _get_logs. rewrite Hc.
  destruct scheduler, (truthy workers); cbn; split;
    try reflexivity; split; intros H; try discriminate H; auto;
    destruct H as [H|H]; discriminate H.
Qed.

End WithTime.

Lemma _get_logs_disconnected_witness :
  let c : cluster nat :=
    {| _cluster_manager_logs := [(1, "Submitted job 7")]; quiet := true;
       printed := []; scheduler_comm := None |} in
  scheduler_comm c = None /\
  (_get_logs true false (WList ["tcp://10.0.0.2:40001"]) c).2 = inl AttributeError.
Proof.
  intros c. split; [reflexivity|].
  apply (_get_logs_disconnected true false (WList ["tcp://10.0.0.2:40001"]) c eq_refl).
  right. reflexivity.
Defined.

End LogsFacts.

Module AdaptivityFacts.
Import Adaptivity.

Section WithAdaptive.

Context {V A : Type}.
Variable Adaptive : gmap string V -> A.
Variable stop_raises : A -> option Cluster.Exn.
Implicit Types c : cluster V A.

Hypothesis stop_tolerated :
  forall a e, stop_raises a = Some e -> e = Cluster.AttributeError.

Lemma adapt_ok (kwargs : gmap string V) c :
  adapt Adaptive stop_raises kwargs c =
    ({| _adaptive := Some (Adaptive (kwargs ∪ default ∅ (_adaptive_options c)));
        _adaptive_options := Some (kwargs ∪ default ∅ (_adaptive_options c));
        stopped := stopped c ++ option_list (_adaptive c) |},
     inr (Adaptive (kwargs ∪ default ∅ (_adaptive_options c)))).
Proof.
  unfold adapt. destruct (_adaptive c) as [a|]; cbn.
  - destruct (stop_raises a) as [e|] eqn:E; [|reflexivity].
    rewrite (stop_tolerated a e E).
    destruct (decide (Cluster.AttributeError = Cluster.AttributeError)) as [_|Hn];
      [reflexivity | contradiction].
  - rewrite app_nil_r. reflexivity.
Qed.

Lemma adapt_all_ok (calls : list (gmap string V)) c :
  calls ≠ [] ->
  exists current,
    adapt_all Adaptive stop_raises calls c =
      ({| _adaptive := Some current;
          _adaptive_options :=
            Some (foldl (fun options kwargs => kwargs ∪ options)
                        (default ∅ (_adaptive_options c)) calls);
          stopped := removelast (stopped c ++ option_list (_adaptive c) ++
                                 created Adaptive (default ∅ (_adaptive_options c)) calls) |},
       None)
    /\ last (created Adaptive (default ∅ (_adaptive_options c)) calls) = Some current.
Proof.
  revert c. induction calls as [|kwargs rest IH]; intros c Hne; [contradiction|].
  cbn [adapt_all]. rewrite adapt_ok.
  destruct rest as [|kwargs' rest].
  - eexists. split; [|reflexivity]. cbn.
    rewrite app_assoc, removelast_last. reflexivity.
  - match goal with
    | |- context [adapt_all _ _ _ ?c1] =>
        destruct (IH c1 ltac:(discriminate)) as (current & H1 & H2)
    end.
    exists current. rewrite H1. cbn [_adaptive _adaptive_options stopped default option_list].
    split.
    + cbn [foldl created]. rewrite <- !app_assoc. reflexivity.
    + cbn [created] in H2 |- *. exact H2.
Qed.

Lemma latest_lookup (key : string) (calls : list (gmap string V))
    (options : gmap string V) :
  foldl (fun options kwargs => kwargs ∪ options) options calls !! key =
    foldl (fun found kwargs =>
             match kwargs !! key with Some v => Some v | None => found end)
          (options !! key) calls.
Proof.
  revert options. induction calls as [|kwargs rest IH]; intros options; [reflexivity|].
  cbn [foldl]. rewrite IH. f_equal.
  destruct (kwargs !! key) as [v|] eqn:E.
  - apply lookup_union_Some_l, E.
  - apply lookup_union_r, E.
Qed.

(** X16. Options accumulate over the calls of [adapt]: on a cluster fresh
    from [__init__], after [adapt] has been called with each of [calls], the
    adaptive in place was made from options in which every key has the value
    of the latest call that gave it, also when later calls did not repeat
    it; and every adaptive made by an earlier call was stopped, once, in the
    order they were made, before its successor was created. *)
Theorem adapt_accumulates_options (calls : list (gmap string V)) c :
  _adaptive c = None ->
  _adaptive_options c = None ->
  calls ≠ [] ->
  exists c' options current,
    adapt_all Adaptive stop_raises calls c = (c', None)
    /\ _adaptive_options c' = Some options
    /\ (forall key, options !! key = latest key calls)
    /\ _adaptive c' = Some current
    /\ current = Adaptive options
    /\ stopped c' ++ [current] = stopped c ++ created Adaptive ∅ calls.
Proof.
  intros Ha Ho Hne. destruct (adapt_all_ok calls c Hne) as (current & H1 & H2).
  rewrite Ha, Ho in H1. rewrite Ho in H2. cbn [default option_list app] in H1, H2.
  eexists _, _, current. split; [exact H1|]. cbn [_adaptive _adaptive_options stopped].
  split; [reflexivity|]. split; [|split; [reflexivity|split]].
  - intros key. rewrite latest_lookup, lookup_empty. reflexivity.
  - clear H1. revert H2. generalize (∅ : gmap string V).
    induction calls as [|kwargs rest IH]; intros options H2; [contradiction|].
    destruct rest as [|kwargs' rest].
    + cbn in H2 |- *. congruence.
    + cbn [foldl]. apply (IH ltac:(discriminate)). exact H2.
  - apply last_Some in H2 as [l' H2]. rewrite H2.
    change (option_list None ++ l' ++ [current]) with (l' ++ [current]).
    rewrite app_assoc, removelast_last. reflexivity.
Qed.

End WithAdaptive.

Lemma adapt_accumulates_options_witness :
  let c : cluster Z (gmap string Z) :=
    {| _adaptive := None; _adaptive_options := None; stopped := [] |} in
  let calls : list (gmap string Z) :=
    [ {[ "minimum" := 0%Z; "maximum" := 10%Z ]}; {[ "maximum" := 4%Z ]} ] in
  (forall (a : gmap string Z) e, (fun _ => None) a = Some e -> e = Cluster.AttributeError) /\
  _adaptive c = None /\ _adaptive_options c = None /\ calls ≠ [] /\
  exists c' options,
    adapt_all (fun o => o) (fun _ => None) calls c = (c', None) /\
    _adaptive c' = Some options /\
    options !! "minimum" = Some 0%Z /\ options !! "maximum" = Some 4%Z.
Proof.
  intros c calls.
  assert (Hs : forall (a : gmap string Z) e,
             (fun _ : gmap string Z => @None Cluster.Exn) a = Some e ->
             e = Cluster.AttributeError) by (intros a e H; discriminate H).
  split; [exact Hs|]. split; [reflexivity|]. split; [reflexivity|].
  split; [discriminate|].
  destruct (adapt_accumulates_options (fun o => o) (fun _ => None) Hs calls c
              eq_refl eq_refl ltac:(discriminate))
    as (c' & options & current & H1 & _ & H3 & H4 & H5 & _).
  exists c', options. split; [exact H1|]. split; [rewrite H4, H5; reflexivity|].
  rewrite !H3. split; reflexivity.
Defined.

End AdaptivityFacts.

Module SyncInfoFacts.
Import SyncInfo.

Lemma count_cons (e x : Event) (l : list Event) :
  count e (x :: l) = (if decide (x = e) then 1 else 0) + count e l.
Proof.
  unfold count. rewrite filter_cons. destruct (decide (x = e)); reflexivity.
Qed.

Lemma count_app (e : Event) (l1 l2 : list Event) :
  count e (l1 ++ l2) = count e l1 + count e l2.
Proof. unfold count. rewrite filter_app, length_app. reflexivity. Qed.

Lemma count_nil (e : Event) : count e [] = 0.
Proof. reflexivity. Qed.

Ltac count_events :=
  unfold warn_at in *;
  repeat first [rewrite count_cons | rewrite count_app | rewrite count_nil | case_decide];
  simplify_eq; try lia.

Lemma loop_warnings_bounded (err_count : nat) (turns : list Turn) :
  warn_at * count warning (loop err_count turns).1 <=
    count (call_set_metadata Failed) (loop err_count turns).1 +
    (if decide (err_count < warn_at) then err_count else 0).
Proof.
  revert err_count.
  induction turns as [|t rest IH]; intros e; cbn [loop].
  - cbn [fst]. count_events.
  - destruct (decide (status_now t = running)) as [_|_]; [|cbn [fst]; count_events].
    destruct (set_metadata t).
    + assert (H := IH 0). destruct (sleep_cancelled t).
      * cbn [fst app]. count_events.
      * destruct (loop 0 rest) as [events ending]. cbn [fst app] in *.
        revert H. count_events.
    + cbn [fst]. count_events.
    + assert (H := IH (S e)). destruct (sleep_cancelled t).
      * cbn [fst]. count_events.
      * destruct (loop (S e) rest) as [events ending]. cbn [fst] in *.
        revert H. count_events.
Qed.

Lemma loop_streak (err_count n : nat) :
  loop err_count (repeat failing n) =
    (flat_map (fun i => call_set_metadata Failed ::
                        (if decide (i = warn_at) then [warning] else []) ++ [sleep i])
              (seq (S err_count) n),
     pending).
Proof.
  revert err_count. induction n as [|n IH]; intros e; [reflexivity|].
  cbn [repeat loop failing status_now set_metadata sleep_cancelled].
  destruct (decide (running = running)) as [_|Hn]; [|contradiction].
  rewrite IH. cbn [seq flat_map app]. rewrite <- app_assoc. reflexivity.
Qed.

Lemma streak_warnings (start n : nat) :
  count warning
    (flat_map (fun i => call_set_metadata Failed ::
                        (if decide (i = warn_at) then [warning] else []) ++ [sleep i])
              (seq start n)) =
    if decide (start <= warn_at < start + n) then 1 else 0.
Proof.
  revert start. induction n as [|n IH]; intros start.
  - cbn [seq flat_map]. count_events.
  - cbn [seq flat_map]. rewrite count_app, IH. count_events.
Qed.

Lemma streak_long_sleeps (start n : nat) :
  count (sleep warn_at)
    (flat_map (fun i => call_set_metadata Failed ::
                        (if decide (i = warn_at) then [warning] else []) ++ [sleep i])
              (seq start n)) =
    if decide (start <= warn_at < start + n) then 1 else 0.
Proof.
  revert start. induction n as [|n IH]; intros start.
  - cbn [seq flat_map]. count_events.
  - cbn [seq flat_map]. rewrite count_app, IH. count_events.
Qed.

(** X17. [_sync_cluster_info] warns at most once for every five failed
    attempts to push the cluster info, whatever the turns of the loop are;
    and over a run of [n] failures in a row it warns exactly once, before
    the sleep that follows the fifth failure, when [n] is five or more, and
    not at all when [n] is less. *)
Theorem _sync_cluster_info_warnings (turns : list Turn) (n : nat) :
  warn_at * count warning (_sync_cluster_info turns).1 <=
    count (call_set_metadata Failed) (_sync_cluster_info turns).1
  /\ count warning (_sync_cluster_info (repeat failing n)).1 =
       (if decide (warn_at <= n) then 1 else 0)
  /\ count (sleep warn_at) (_sync_cluster_info (repeat failing n)).1 =
       count warning (_sync_cluster_info (repeat failing n)).1.
Proof.
  split; [|split].
  - pose proof (loop_warnings_bounded 0 turns) as H. unfold _sync_cluster_info.
    revert H. count_events.
  - unfold _sync_cluster_info. rewrite loop_streak. cbn [fst].
    rewrite streak_warnings. count_events.
  - unfold _sync_cluster_info. rewrite loop_streak. cbn [fst].
    rewrite streak_warnings, streak_long_sleeps. reflexivity.
Qed.

End SyncInfoFacts.

(* ===================================================================== *)
(** ** Properties of the policies of the test module *)
(* ===================================================================== *)

Module TestPolicyFacts.
Import AMM.

Lemma select_elem (s : Scheduler) (idx : list Z) (a : Addr) :
  a ∈ DemoPolicy.select s idx <->
  exists i ws, workers s !! i = Some ws /\ address ws = a /\ Z.of_nat i ∈ idx.
Proof.
  unfold DemoPolicy.select. rewrite elem_of_list_to_set, list_elem_of_omap. split.
  - intros ([i ws] & Hin & Hsome). apply list_elem_of_lookup in Hin as [j Hj].
    apply list_lookup_imap_Some in Hj as (ws' & Hws & Heq). inversion Heq; subst.
    cbn [fst snd] in Hsome. case_bool_decide as Hi; [|discriminate Hsome].
    inversion Hsome. exists j, ws'. repeat split; assumption.
  - intros (i & ws & Hws & Ha & Hi). exists (i, ws). split.
    + apply list_elem_of_lookup. exists i. apply list_lookup_imap_Some.
      exists ws. split; [exact Hws | reflexivity].
    + cbn [fst snd]. rewrite bool_decide_eq_true_2 by exact Hi. rewrite Ha. reflexivity.
Qed.

(** X18. The candidates of a [DemoPolicy] are the workers whose position
    in [scheduler.workers] is among the indices given: they are always
    workers of the scheduler, and an index that is negative or past the last
    worker selects nothing (it neither fails nor counts from the end). *)
Theorem DemoPolicy_select_by_position (s : Scheduler) (idx : list Z) :
  (forall a, a ∈ DemoPolicy.select s idx <->
             exists i ws, workers s !! i = Some ws /\ address ws = a /\
                          Z.of_nat i ∈ idx)
  /\ DemoPolicy.select s idx ⊆ all_workers s
  /\ DemoPolicy.select s idx =
       DemoPolicy.select s
         (filter (fun z => (0 <= z < Z.of_nat (length (workers s)))%Z) idx).
Proof.
  split; [intros a; apply select_elem|]. split.
  - intros a Ha. apply select_elem in Ha as (i & ws & Hws & <- & _).
    unfold all_workers. apply elem_of_list_to_set, list_elem_of_fmap.
    exists ws. split; [reflexivity|]. apply list_elem_of_lookup. exists i. exact Hws.
  - apply set_eq. intros a. rewrite !select_elem. split.
    + intros (i & ws & Hws & Ha & Hi). exists i, ws. repeat split; try assumption.
      apply list_elem_of_filter. split; [|exact Hi].
      apply lookup_lt_Some in Hws. lia.
    + intros (i & ws & Hws & Ha & Hi). exists i, ws. repeat split; try assumption.
      apply list_elem_of_filter in Hi as [_ Hi]. exact Hi.
Qed.

(** X19. Every suggestion of [DemoPolicy.run] is the policy's own action,
    on the policy's own key, with the candidates selected; there are [n] of
    them for each task of the scheduler that has this key, hence none when
    [n] is zero or negative or when no task has the key. *)
Theorem DemoPolicy_run_shape (p : DemoPolicy.t) (s : Scheduler) :
  Forall (fun sg => sg = (DemoPolicy.action p, DemoPolicy.key p,
                          DemoPolicy.select s <$> DemoPolicy.candidates p))
         (DemoPolicy.run p s)
  /\ length (DemoPolicy.run p s) =
       Z.to_nat (DemoPolicy.n p) *
       length (filter (fun ts => key ts = DemoPolicy.key p) (tasks s))
  /\ ((DemoPolicy.n p <= 0)%Z -> DemoPolicy.run p s = [])
  /\ (DemoPolicy.key p ∉ key <$> tasks s -> DemoPolicy.run p s = []).
Proof.
  unfold DemoPolicy.run. cbv zeta.
  assert (H : forall l,
    Forall (fun sg => sg = (DemoPolicy.action p, DemoPolicy.key p,
                            DemoPolicy.select s <$> DemoPolicy.candidates p))
      (flat_map (fun ts => if bool_decide (key ts = DemoPolicy.key p)
                           then repeat (DemoPolicy.action p, key ts,
                                        DemoPolicy.select s <$> DemoPolicy.candidates p)
                                       (Z.to_nat (DemoPolicy.n p))
                           else []) l)
    /\ length (flat_map (fun ts => if bool_decide (key ts = DemoPolicy.key p)
                           then repeat (DemoPolicy.action p, key ts,
                                        DemoPolicy.select s <$> DemoPolicy.candidates p)
                                       (Z.to_nat (DemoPolicy.n p))
                           else []) l) =
       Z.to_nat (DemoPolicy.n p) *
       length (filter (fun ts => key ts = DemoPolicy.key p) l)).
  { induction l as [|ts l [IH1 IH2]]; [split; [constructor | cbn; lia]|].
    cbn [flat_map]. rewrite filter_cons, length_app, IH2.
    case_bool_decide as Hk.
    - rewrite decide_True by exact Hk. split.
      + apply Forall_app. split; [|exact IH1]. rewrite Hk.
        apply Forall_forall. intros sg Hsg. apply list_elem_of_In, repeat_spec in Hsg.
        exact Hsg.
      + rewrite repeat_length. cbn [length]. lia.
    - rewrite decide_False by exact Hk. split; [exact IH1 | cbn; lia]. }
  destruct (H (tasks s)) as [H1 H2]. split; [exact H1|]. split; [exact H2|]. split.
  - intros Hn. apply length_zero_iff_nil. etransitivity; [exact H2|].
    replace (Z.to_nat (DemoPolicy.n p)) with 0 by lia. reflexivity.
  - intros Hk. apply length_zero_iff_nil. etransitivity; [exact H2|].
    replace (filter (fun ts => key ts = DemoPolicy.key p) (tasks s)) with (@nil TaskState);
      [cbn; lia|].
    symmetry. apply elem_of_nil_inv. intros ts Hts.
    apply list_elem_of_filter in Hts as [Heq Hts]. apply Hk.
    apply list_elem_of_fmap. exists ts. split; [symmetry; exact Heq | exact Hts].
Qed.

Section Drop.

Variable shuffle : Key -> list Addr -> list Addr.
Hypothesis shuffle_permutes : forall k l, shuffle k l ≡ₚ l.

Lemma runs_lookup (p : DropEverything.t) (states : list Scheduler) (j : nat) :
  j < length states ->
  DropEverything.runs shuffle p states !! j =
    Some (bool_decide (DropEverything.i p + Z.of_nat j + 1 = 20)%Z).
Proof.
  revert p j. induction states as [|s rest IH]; intros p j Hj; [cbn in Hj; lia|].
  cbn [DropEverything.runs DropEverything.run]. destruct j as [|j].
  - cbn. f_equal. apply bool_decide_ext. lia.
  - cbn [lookup list_lookup]. cbn [length] in Hj.
    etransitivity; [apply (IH _ j); lia|]. cbn [DropEverything.i].
    f_equal. apply bool_decide_ext. lia.
Qed.

(** X20. A run of [DropEverything] suggests, for every task and every
    worker that holds a replica of it, one drop of that task with that
    worker as the only candidate, and nothing else, in whatever order the
    shuffle puts the holders; and a policy fresh from [__init__] removes
    itself from the manager's policies in its twentieth run, not before. *)
Theorem DropEverything_run (p : DropEverything.t) (s : Scheduler)
    (states : list Scheduler) :
  (forall sg, sg ∈ (DropEverything.run shuffle p s).1.1 <->
              exists ts w, ts ∈ tasks s /\ w ∈ who_has ts /\
                           sg = (drop, key ts, Some {[ w ]}))
  /\ length (DropEverything.run shuffle p s).1.1 =
       sum_list ((fun ts => size (who_has ts)) <$> tasks s)
  /\ (forall j, j < length states ->
        DropEverything.runs shuffle DropEverything.__init__ states !! j =
          Some (bool_decide (j = 19))).
Proof.
  split; [|split].
  - intros sg. cbn [DropEverything.run fst]. rewrite list_elem_of_In, in_flat_map. split.
    + intros (ts & Hts & Hsg). apply list_elem_of_In in Hts, Hsg.
      apply list_elem_of_fmap in Hsg as (w & -> & Hw).
      rewrite shuffle_permutes in Hw. apply elem_of_elements in Hw.
      exists ts, w. repeat split; assumption.
    + intros (ts & w & Hts & Hw & ->). exists ts. split; [apply list_elem_of_In, Hts|].
      apply list_elem_of_In, list_elem_of_fmap. exists w. split; [reflexivity|].
      rewrite shuffle_permutes. apply elem_of_elements, Hw.
  - cbn [DropEverything.run fst]. induction (tasks s) as [|ts l IH]; [reflexivity|].
    cbn [flat_map fmap list_fmap sum_list]. rewrite length_app, IH, length_fmap.
    rewrite shuffle_permutes. reflexivity.
  - intros j Hj. rewrite (runs_lookup _ _ _ Hj). f_equal.
    apply bool_decide_ext. cbn. lia.
Qed.

End Drop.

Import Scenarios.

Lemma DropEverything_run_witness :
  (forall (k : Key) (l : list Addr), reverse l ≡ₚ l) /\
  length (DropEverything.run (fun _ l => reverse l) DropEverything.__init__
            four_workers).1.1 = 4 /\
  DropEverything.runs (fun _ l => reverse l) DropEverything.__init__
    (repeat four_workers 21) !! 19 = Some true.
Proof.
  assert (Hp : forall (k : Key) (l : list Addr), reverse l ≡ₚ l)
    by (intros _ l; apply reverse_Permutation).
  split; [exact Hp|].
  destruct (DropEverything_run (fun _ l => reverse l) Hp DropEverything.__init__
              four_workers (repeat four_workers 21)) as (_ & H2 & H3).
  split; [rewrite H2; reflexivity | apply H3; cbn; lia].
Defined.

End TestPolicyFacts.

(* ===================================================================== *)
(** ** Properties of the watch on the scheduler *)
(* ===================================================================== *)

Module WatchFacts.
Import Info Watch.

Lemma update_all_keeps_workers (msgs : list (string * PyVal)) (scheduler_info : dict) :
  has_workers scheduler_info -> has_workers (update_all msgs scheduler_info).1.
Proof.
  revert scheduler_info. induction msgs as [|[op msg] rest IH]; intros info H; [exact H|].
  cbn [update_all].
  pose proof (InfoFacts.update_keeps_workers op msg info H) as H1.
  destruct (_update_worker_status op msg info) as [[info' msg'] [e|u]]; cbn [fst] in *.
  - exact H1.
  - apply IH, H1.
Qed.

Lemma update_all_app (msgs1 msgs2 : list (string * PyVal)) (scheduler_info : dict) :
  update_all (msgs1 ++ msgs2) scheduler_info =
    match update_all msgs1 scheduler_info with
    | (scheduler_info', inl e) => (scheduler_info', inl e)
    | (scheduler_info', inr _) => update_all msgs2 scheduler_info'
    end.
Proof.
  revert scheduler_info. induction msgs1 as [|[op msg] rest IH]; intros info; [reflexivity|].
  cbn [app update_all].
  destruct (_update_worker_status op msg info) as [[info' msg'] [e|u]];
    [reflexivity | apply IH].
Qed.

Section WithLogErrors.

Variable log_errors_reraises : bool.

(** X21. Whatever the scheduler sends and however [log_errors] treats an
    exception, [scheduler_info["workers"]] is a dictionary at every point
    at which [_watch_worker_status] can stand, provided that it was one
    when the watch began. *)
Theorem _watch_worker_status_keeps_workers (reads : list Read) (scheduler_info : dict) :
  has_workers scheduler_info ->
  has_workers (_watch_worker_status log_errors_reraises reads scheduler_info).1.
Proof.
  revert scheduler_info. induction reads as [|[msgs|] rest IH]; intros info H;
    [exact H | | exact H].
  cbn [_watch_worker_status].
  pose proof (update_all_keeps_workers msgs info H) as H1.
  destruct (update_all msgs info) as [info' [e|u]]; cbn [fst] in H1.
  - destruct log_errors_reraises; [exact H1 | apply IH, H1].
  - apply IH, H1.
Qed.

(** X22. The watch ends at the first read that fails with [OSError]:
    nothing that the comm would give afterwards is looked at.  When none of
    the messages read before it makes [_update_worker_status] raise, they
    have all been applied, batch after batch in the order read, and the
    comm has been closed. *)
Theorem _watch_worker_status_until_OSError (before after : list Read)
    (scheduler_info : dict) :
  _watch_worker_status log_errors_reraises (before ++ OSError :: after) scheduler_info =
    _watch_worker_status log_errors_reraises (before ++ [OSError]) scheduler_info
  /\ (forall scheduler_info',
        update_all (stream before) scheduler_info = (scheduler_info', inr tt) ->
        OSError ∉ before ->
        _watch_worker_status log_errors_reraises (before ++ OSError :: after)
          scheduler_info = (scheduler_info', comm_closed)).
Proof.
  split.
  - revert scheduler_info. induction before as [|[msgs|] rest IH]; intros info;
      [reflexivity | | reflexivity].
    cbn [app _watch_worker_status].
    destruct (update_all msgs info) as [info' [e|u]].
    + destruct log_errors_reraises; [reflexivity | apply IH].
    + apply IH.
  - revert scheduler_info. induction before as [|[msgs|] rest IH];
      intros info info' Hall Hno.
    + cbn in Hall |- *. inversion Hall. reflexivity.
    + cbn [stream flat_map] in Hall. rewrite update_all_app in Hall.
      cbn [app _watch_worker_status].
      destruct (update_all msgs info) as [info1 [e|u]]; [discriminate Hall|].
      apply IH; [exact Hall|]. intros Hin. apply Hno. right. exact Hin.
    + exfalso. apply Hno. left.
Qed.

End WithLogErrors.

Import InfoScenarios.

Lemma _watch_worker_status_keeps_workers_witness :
  has_workers fresh /\
  has_workers
    (_watch_worker_status true
       [messages [("add", add_w1)]; messages [("remove", PStr "tcp://10.0.0.9:1")]]
       fresh).1.
Proof.
  assert (H : has_workers fresh) by (exists ∅; reflexivity).
  split; [exact H|].
  apply (_watch_worker_status_keeps_workers true _ fresh H).
Defined.

End WatchFacts.
